(** * qutebrowser.commands.runners: command-line parsing and dispatch

    A shallow embedding of [src/qutebrowser/commands/runners.py]
    ([CommandRunner] and its helpers) together with the properties its
    specification states about it.

    Conventions of the embedding:
    - a Python [str] is a [string]; its characters are the code points
      below 256, which is all the parser ever inspects (space, colon,
      semicolon, dash and Python's white space);
    - a Python [int] is a [Z]; [None] is [None] of an [option];
    - a raised exception is the [Raise] alternative of [result]; a
      generator is the list of values it yields plus the exception that
      ended it, if any;
    - dictionaries ([cmdutils.cmd_dict], the [aliases] section of the
      configuration, [last_command]) are [gmap]s. *)

From stdpp Require Import base option list gmap strings.
From Stdlib Require Import ZArith Ascii Lia.

Local Open Scope Z_scope.

(** ** Python's [str] methods used by the runner *)

Module Py.

(** [c.isspace()] for a code point below 256: TAB..CR, FS..US, space,
    NEL and NBSP. *)
Definition isspace (c : ascii) : bool :=
  let n := nat_of_ascii c in
  ((9 <=? n) && (n <=? 13) || (28 <=? n) && (n <=? 31) ||
   (n =? 32) || (n =? 133) || (n =? 160))%nat.

Definition char_eqb (a b : ascii) : bool := bool_decide (a = b).

(** [s.lstrip()] *)
Fixpoint lstrip (s : string) : string :=
  match s with
  | EmptyString => EmptyString
  | String c s' => if isspace c then lstrip s' else s
  end.

(** [s.rstrip()] *)
Fixpoint rstrip (s : string) : string :=
  match s with
  | EmptyString => EmptyString
  | String c s' =>
      match rstrip s' with
      | EmptyString => if isspace c then EmptyString else String c EmptyString
      | r => String c r
      end
  end.

(** [s.strip()] *)
Definition strip (s : string) : string := lstrip (rstrip s).

(** The longest prefix without white space, and what follows it. *)
Fixpoint break_space (s : string) : string * string :=
  match s with
  | EmptyString => (EmptyString, EmptyString)
  | String c s' =>
      if isspace c then (EmptyString, s)
      else let '(w, r) := break_space s' in (String c w, r)
  end.

(** [s.split()]: the maximal runs of characters that are not white
    space, in order. *)
Fixpoint split (s : string) : list string :=
  match s with
  | EmptyString => []
  | String c s' =>
      let ws := split s' in
      if isspace c then ws
      else
        match s' with
        | EmptyString => [String c EmptyString]
        | String c' _ =>
            if isspace c' then String c EmptyString :: ws
            else
              match ws with
              | w :: ws' => String c w :: ws'
              | [] => [String c EmptyString]
              end
        end
  end.

(** [s.split(maxsplit=n)]: at most [n] splits at runs of white space;
    once [n] words are split off, what is left (its leading white space
    skipped) is the last element, when it is not empty. *)
Fixpoint split_max (n : nat) (s : string) : list string :=
  match lstrip s with
  | EmptyString => []
  | s1 =>
      match n with
      | O => [s1]
      | S n' => let '(w, r) := break_space s1 in w :: split_max n' r
      end
  end.

(** [s.partition(sep)] for a separator of one character. *)
Fixpoint partition (sep : ascii) (s : string) : string * string * string :=
  match s with
  | EmptyString => (EmptyString, EmptyString, EmptyString)
  | String c s' =>
      if char_eqb c sep then (EmptyString, String sep EmptyString, s')
      else let '(a, b, d) := partition sep s' in (String c a, b, d)
  end.

(** [sep in s] for a separator of one character. *)
Fixpoint contains (sep : ascii) (s : string) : bool :=
  match s with
  | EmptyString => false
  | String c s' => char_eqb c sep || contains sep s'
  end.

(** [s.split(sep, maxsplit=1)] for a separator of one character. *)
Definition split_char_max1 (sep : ascii) (s : string) : list string :=
  let '(a, b, d) := partition sep s in
  match b with
  | EmptyString => [s]
  | _ => [a; d]
  end.

(** [sep + sep in s] for the two-character separator made of [sep]
    twice (the runner's [';;']). *)
Fixpoint contains2 (sep : ascii) (s : string) : bool :=
  match s with
  | EmptyString => false
  | String c s' =>
      match s' with
      | String c' _ => char_eqb c sep && char_eqb c' sep || contains2 sep s'
      | EmptyString => false
      end
  end.

(** [s.split(sep + sep)]: leftmost, non-overlapping occurrences. *)
Fixpoint split2 (sep : ascii) (s : string) : list string :=
  match s with
  | EmptyString => [EmptyString]
  | String c s' =>
      let plain :=
        match split2 sep s' with
        | h :: t => String c h :: t
        | [] => [String c EmptyString]
        end in
      match s' with
      | String c' s'' =>
          if char_eqb c sep && char_eqb c' sep
          then EmptyString :: split2 sep s''
          else plain
      | EmptyString => plain
      end
  end.

(** The truth value of [s]: it is not the empty string. *)
Definition truth (s : string) : bool :=
  match s with
  | EmptyString => false
  | String _ _ => true
  end.

(** [s.endswith(c)] *)
Fixpoint endswith (c : ascii) (s : string) : bool :=
  match s with
  | EmptyString => false
  | String c' EmptyString => char_eqb c' c
  | String _ s' => endswith c s'
  end.

(** [s.startswith(c)] *)
Definition startswith (c : ascii) (s : string) : bool :=
  match s with
  | String c' _ => char_eqb c' c
  | EmptyString => false
  end.

(** [s.find(sub) == 0]: [sub] is a prefix of [s]. *)
Definition find_is_0 (sub s : string) : bool := String.prefix sub s.

(** [x in l] for a list of strings. *)
Definition str_in (x : string) (l : list string) : bool :=
  bool_decide (x ∈ l).

(** The white space that [int] skips around a literal: TAB..CR and the
    space, and NEL and NBSP, which [int] turns into spaces first.  The
    separators FS..US are white space for [str.strip] but not for
    [int]. *)
Definition int_isspace (c : ascii) : bool :=
  let n := nat_of_ascii c in
  ((9 <=? n) && (n <=? 13) || (n =? 32) || (n =? 133) || (n =? 160))%nat.

(** [s] without the leading characters that satisfy [p]. *)
Fixpoint lstrip_by (p : ascii → bool) (s : string) : string :=
  match s with
  | EmptyString => EmptyString
  | String c s' => if p c then lstrip_by p s' else s
  end.

(** [s] without the trailing characters that satisfy [p]. *)
Fixpoint rstrip_by (p : ascii → bool) (s : string) : string :=
  match s with
  | EmptyString => EmptyString
  | String c s' =>
      match rstrip_by p s' with
      | EmptyString => if p c then EmptyString else String c EmptyString
      | r => String c r
      end
  end.

(** The value of a string of decimal digits in which single underscores
    may stand between two digits; [after_digit] says that the character
    before was a digit, which an underscore and the end require. *)
Fixpoint digits (acc : Z) (after_digit : bool) (s : string) : option Z :=
  match s with
  | EmptyString => if after_digit then Some acc else None
  | String c s' =>
      let n := nat_of_ascii c in
      if ((48 <=? n) && (n <=? 57))%nat
      then digits (10 * acc + Z.of_nat (n - 48)) true s'
      else if char_eqb c "_" && after_digit then digits acc false s'
      else None
  end.

(** [int(s)]: [Some] the integer, or [None] where Python raises
    [ValueError].  White space around the literal is skipped, one sign
    is accepted, and the digits may be grouped by single underscores (as
    in Python 3.6 and later).  The length of the literal is not bounded:
    the limit that an interpreter from Python 3.11 on may set on the
    number of digits ([sys.set_int_max_str_digits]) is taken to be
    off. *)
Definition int (s : string) : option Z :=
  match lstrip_by int_isspace (rstrip_by int_isspace s) with
  | String "+"%char d => digits 0 false d
  | String "-"%char d => Z.opp <$> digits 0 false d
  | t => digits 0 false t
  end.

End Py.

(** ** The runner *)

Module Runners.

(** *** Exceptions and results *)

(** The exceptions that can leave the functions below.  The first three
    are qutebrowser's own ([cmdexc]); the others are Python's. *)
Inductive exn : Type :=
| NoSuchCommandError (msg : string)
| CommandError (msg : string)
| CommandMetaError (msg : string)
| AttributeError
| IndexError
| ValueError
| TypeError
| UnboundLocalError.

Inductive result (A : Type) : Type :=
| Ok (a : A)
| Raise (e : exn).
Arguments Ok {A} a.
Arguments Raise {A} e.

#[global] Instance result_ret : MRet result := λ A a, Ok a.
#[global] Instance result_bind : MBind result :=
  λ A B f m, match m with Ok a => f a | Raise e => Raise e end.
#[global] Instance result_fmap : FMap result :=
  λ A B f m, match m with Ok a => Ok (f a) | Raise e => Raise e end.

#[global] Instance exn_eq_dec : EqDecision exn.
Proof. solve_decision. Defined.

(** What a generator produced: the values it yielded, in order, and the
    exception that ended the iteration, if one did. *)
Record Gen (A : Type) : Type := MkGen {
  yielded : list A;
  raised : option exn
}.
Arguments MkGen {A} yielded raised.
Arguments yielded {A} g.
Arguments raised {A} g.

(** [for x in xs: yield f(x)] *)
Fixpoint yield_each {A B : Type} (f : A → result B) (xs : list A) : Gen B :=
  match xs with
  | [] => MkGen [] None
  | x :: xs' =>
      match f x with
      | Raise e => MkGen [] (Some e)
      | Ok b => let g := yield_each f xs' in MkGen (b :: yielded g) (raised g)
      end
  end.

(** *** Data *)

(** The attributes of a registered command that the runner reads
    ([cmdutils.cmd_dict] maps names to such objects). *)
Record Command : Type := MkCommand {
  name : string;
  maxsplit : option Z;
  flags_with_args : list string;
  no_cmd_split : bool
}.

#[global] Instance Command_eq_dec : EqDecision Command.
Proof. solve_decision. Defined.

(** [ParseResult = namedtuple('ParseResult', ['cmd', 'args', 'cmdline', 'count'])] *)
Record ParseResult : Type := MkParseResult {
  cmd : option Command;
  args : option (list string);
  cmdline : list string;
  count : option Z
}.

#[global] Instance ParseResult_eq_dec : EqDecision ParseResult.
Proof. solve_decision. Defined.

(** A result of [parse] either is the fallback result, without command
    and without arguments, or has both. *)
Definition paired (r : ParseResult) : Prop :=
  (cmd r = None ∧ args r = None) ∨ (is_Some (cmd r) ∧ is_Some (args r)).

(** The collaborators of the parser: the command registry, the [aliases]
    section of the configuration, and the two splitters of
    [qutebrowser.misc.split], which the runner only calls. *)
Record Env : Type := MkEnv {
  cmd_dict : gmap string Command;
  aliases : gmap string string;
  split_split : string → bool → list string;
  split_simple_split : string → bool → option Z → list string
}.

(** [CommandRunner]'s attributes. *)
Record CommandRunner : Type := MkCommandRunner {
  _win_id : nat;
  _partial_match : bool
}.

(** *** Parsing *)

Section Parser.

Context (E : Env) (self : CommandRunner).

(** [_get_alias]: [config.get('aliases', parts[0])] raises
    [NoOptionError] exactly when the table has no such key; [parts[0]]
    is evaluated first and raises [IndexError] on an empty list. *)
Definition _get_alias (text : string) : result (option string) :=
  let parts := Py.split_max 1 (Py.strip text) in
  match parts !! 0%nat with
  | None => Raise IndexError
  | Some parts0 =>
      match aliases E !! parts0 with
      | None => Ok None
      | Some alias =>
          let new_cmd :=
            match parts !! 1%nat with
            | Some parts1 => alias +:+ " " +:+ parts1
            | None => alias
            end in
          let new_cmd :=
            if Py.endswith " " text then new_cmd +:+ " " else new_cmd in
          Ok (Some new_cmd)
      end
  end.

(** [_parse_count].  The two results of the split are unpacked into
    [count, cmdstr], which raises [ValueError] for any other number of
    results. *)
Definition _parse_count (cmdstr : string) : result (option Z * string) :=
  if negb (Py.contains ":" cmdstr) then Ok (None, cmdstr)
  else
    match Py.split_char_max1 ":" cmdstr with
    | [count; cmdstr] => Ok (Py.int count, cmdstr)
    | _ => Raise ValueError
    end.

(** [_parse_fallback] *)
Definition _parse_fallback (text : string) (count : option Z) (keep : bool)
  : ParseResult :=
  let cmdline :=
    if keep then
      let '(cmdstr, sep, argstr) := Py.partition " " text in
      [cmdstr; sep] ++ Py.split argstr
    else Py.split text in
  MkParseResult None None cmdline count.

(** [_completion_match] *)
Definition _completion_match (cmdstr : string) : string :=
  let matches :=
    List.filter (Py.find_is_0 cmdstr) (fst <$> map_to_list (cmd_dict E)) in
  match matches with
  | [m] => m
  | _ => cmdstr
  end.

(** The [for i, arg in enumerate(split_args)] loop of [_split_args],
    entered at index [i] with [flag_arg_count] flags counted so far;
    [todo] is what is left of [split_args]. *)
Fixpoint _split_args_loop (cmd : Command) (cmd_maxsplit : Z) (argstr : string)
    (keep : bool) (split_args : list string)
    (i : nat) (flag_arg_count : nat) (todo : list string) : list string :=
  match todo with
  | [] => split_args
  | arg :: todo' =>
      let arg := Py.strip arg in
      if Py.startswith "-" arg then
        if Py.str_in arg (flags_with_args cmd)
        then _split_args_loop cmd cmd_maxsplit argstr keep split_args
               (S i) (S flag_arg_count) todo'
        else _split_args_loop cmd cmd_maxsplit argstr keep split_args
               (S i) flag_arg_count todo'
      else
        let maxsplit := Z.of_nat i + cmd_maxsplit + Z.of_nat flag_arg_count in
        split_simple_split E argstr keep (Some maxsplit)
  end.

(** [_split_args] *)
Definition _split_args (cmd : Command) (argstr : string) (keep : bool)
  : list string :=
  match argstr with
  | EmptyString => []
  | _ =>
      match maxsplit cmd with
      | None => split_split E argstr keep
      | Some cmd_maxsplit =>
          let split_args := split_simple_split E argstr keep None in
          _split_args_loop cmd cmd_maxsplit argstr keep split_args
            0%nat 0%nat split_args
      end
  end.

(** The body of [parse]; [reparse new_cmd fallback keep] stands for the
    recursive call [self.parse(new_cmd, aliases=False, fallback=fallback,
    keep=keep)]. *)
Definition parse_body (reparse : string → bool → bool → result ParseResult)
    (text : string) (aliases fallback keep : bool) : result ParseResult :=
  let '(cmdstr, sep, argstr) := Py.partition " " text in
  '(count, cmdstr) ← _parse_count cmdstr;
  if negb (Py.truth cmdstr) && negb fallback
  then Raise (NoSuchCommandError "No command given")
  else
    new_cmd ← (if aliases then _get_alias text else Ok None);
    match new_cmd with
    | Some new_cmd => reparse new_cmd fallback keep
    | None =>
        let cmdstr :=
          if _partial_match self then _completion_match cmdstr else cmdstr in
        match cmd_dict E !! cmdstr with
        | None =>
            if negb fallback
            then Raise (NoSuchCommandError (cmdstr +:+ ": no such command"))
            else Ok (_parse_fallback text count keep)
        | Some cmd =>
            let args := _split_args cmd argstr keep in
            let cmdline :=
              match keep, args with
              | true, args0 :: args' => [cmdstr; sep +:+ args0] ++ args'
              | true, [] => [cmdstr; sep]
              | false, _ => [cmdstr] ++ args
              end in
            Ok (MkParseResult (Some cmd) (Some args) cmdline count)
        end
    end.

(** [parse].  The only recursive call passes [aliases=False], and a call
    with [aliases=False] makes none, so the recursion is one level deep:
    the inner level never reaches its own recursive call, which is
    closed off with an exception that [parse_unfold] shows unreachable. *)
Definition parse_no_aliases (text : string) (fallback keep : bool)
  : result ParseResult :=
  parse_body (λ _ _ _, Raise TypeError) text false fallback keep.

Definition parse (text : string) (aliases fallback keep : bool)
  : result ParseResult :=
  parse_body parse_no_aliases text aliases fallback keep.

(** The texts [parse_all] iterates over ([sub_texts]), or the exception
    raised while finding them. *)
Definition sub_texts (text : string) (aliases fallback keep : bool)
  : result (list string) :=
  if Py.contains2 ";" text then
    match Py.split2 ";" text !! 0%nat with
    | None => Raise IndexError
    | Some first =>
        result ← parse first aliases fallback keep;
        match cmd result with
        | None => Raise AttributeError
        | Some c =>
            if no_cmd_split c then Ok [text]
            else Ok (Py.strip <$> Py.split2 ";" text)
        end
    end
  else Ok [text].

(** [parse_all] *)
Definition parse_all (text : string) (aliases fallback keep : bool)
  : Gen ParseResult :=
  match sub_texts text aliases fallback keep with
  | Raise e => MkGen [] (Some e)
  | Ok subs => yield_each (λ sub, parse sub aliases fallback keep) subs
  end.

End Parser.

(** *** Dispatch *)

(** [QUrl.FormattingOptions] passed to [toString]. *)
Inductive UrlFormattingOption : Type :=
| FullyEncoded
| RemovePassword.

#[global] Instance UrlFormattingOption_eq_dec : EqDecision UrlFormattingOption.
Proof. solve_decision. Defined.

(** PyQt5's [QUrl] as far as the runner depends on it: a URL with an
    authority, kept as its scheme, the user name and the password of its
    user info (each absent or present), and what follows the user info
    (host, port, path, query and fragment).  [toString] prints the
    scheme, ["://"], the user info followed by ["@"], and the rest, as
    [QUrlPrivate::appendAuthority] and [appendUserInfo] do: the user
    name, then [":"] and the password unless [RemovePassword] is set or
    there is no password, then ["@"] if there is a user name, or a
    password that is printed.  The user name is left out only by
    [RemoveUserInfo], which the runner does not pass.  [recode options]
    is Qt's rendering of one component under the formatting options
    (percent-encoded with [FullyEncoded], decoded for display without). *)
Module Qt.

Inductive Part : Type := UserName | Password | Rest.

Record Url : Type := MkUrl {
  scheme : string;
  userName : option string;
  password : option string;
  rest : string
}.

Section Rendering.

Context (recode : list UrlFormattingOption → Part → string → string).

Definition appendUserInfo (u : Url) (options : list UrlFormattingOption)
    : string :=
  match userName u, password u with
  | None, None => EmptyString
  | user, pass =>
      match user with
      | Some name => recode options UserName name
      | None => EmptyString
      end +:+
      match pass with
      | Some word =>
          if bool_decide (RemovePassword ∈ options) then EmptyString
          else ":" +:+ recode options Password word
      | None => EmptyString
      end
  end.

Definition appendAuthority (u : Url) (options : list UrlFormattingOption)
    : string :=
  appendUserInfo u options +:+
  (if bool_decide (is_Some (userName u)) ||
      (bool_decide (is_Some (password u)) &&
       negb (bool_decide (RemovePassword ∈ options)))
   then "@" else EmptyString) +:+
  recode options Rest (rest u).

Definition toString (u : Url) (options : list UrlFormattingOption)
    : string :=
  scheme u +:+ "://" +:+ appendAuthority u options.

End Rendering.

End Qt.

(** The host application as the runner sees it: the state [Host] of the
    window, the tabbed browser's [current_url] (which raises
    [QtValueError] with a [reason], empty when there is none),
    [QUrl.toString], the mode manager's [mode], and [Command.run].  A
    command may change the window's state and the module-level
    dictionary [last_command] (of type [Dict]), which it sees as it is
    when it is invoked, and it may raise. *)
Record Browser (Host QUrl Mode Dict : Type) : Type := MkBrowser {
  current_url : Host → QUrl + string;
  toString : QUrl → list UrlFormattingOption → string;
  mode : Host → Mode;
  cmd_run : Command → nat → list string → option Z → Host → Dict →
            Host * Dict * result unit
}.
Arguments MkBrowser {Host QUrl Mode Dict} current_url toString mode cmd_run.
Arguments current_url {Host QUrl Mode Dict} b h.
Arguments toString {Host QUrl Mode Dict} b u o.
Arguments mode {Host QUrl Mode Dict} b h.
Arguments cmd_run {Host QUrl Mode Dict} b c w a n h d.

Section Substitution.

Context {Host QUrl Mode Dict : Type} (B : Browser Host QUrl Mode Dict).

(** [_current_url] *)
Definition _current_url (h : Host) : result QUrl :=
  match current_url B h with
  | inl url => Ok url
  | inr reason =>
      let msg := "Current URL is invalid" in
      let msg := if Py.truth reason then msg +:+ " (" +:+ reason +:+ ")" else msg in
      let msg := msg +:+ "!" in
      Raise (CommandError msg)
  end.

(** The [for arg in arglist] loop of [replace_variables]; [url] and
    [pretty_url] are [None] while the variable is unbound. *)
Fixpoint replace_variables_loop (url pretty_url : option string)
    (arglist : list string) : result (list string) :=
  match arglist with
  | [] => Ok []
  | arg :: arglist' =>
      arg' ← (if bool_decide (arg = "{url}") then
                match url with Some u => Ok u | None => Raise UnboundLocalError end
              else if bool_decide (arg = "{url:pretty}") then
                match pretty_url with Some u => Ok u | None => Raise UnboundLocalError end
              else Ok arg);
      args ← replace_variables_loop url pretty_url arglist';
      Ok (arg' :: args)
  end.

(** [replace_variables] *)
Definition replace_variables (h : Host) (arglist : list string)
  : result (list string) :=
  url ← (if Py.str_in "{url}" arglist
         then u ← _current_url h;
              Ok (Some (toString B u [FullyEncoded; RemovePassword]))
         else Ok None);
  pretty_url ← (if Py.str_in "{url:pretty}" arglist
                then u ← _current_url h; Ok (Some (toString B u [RemovePassword]))
                else Ok None);
  replace_variables_loop url pretty_url arglist.

End Substitution.

Section Dispatch.

Context {Host QUrl Mode : Type} `{Countable Mode}.
Context (E : Env) (B : Browser Host QUrl Mode (gmap Mode (string * option Z)))
  (self : CommandRunner).

(** A call [cmd.run(win_id, args, count=...)]; the count is [None] when
    the call passes none. *)
Record Call : Type := MkCall {
  call_cmd : Command;
  call_win_id : nat;
  call_args : list string;
  call_count : option Z
}.

(** The state [run] works on: the window, the module-level dictionary
    [last_command], and the calls of [Command.run] made so far (most
    recent last), kept to state what was invoked. *)
Record State : Type := MkState {
  host : Host;
  last_command : gmap Mode (string * option Z);
  calls : list Call
}.

(** Computations that read and change the state and may raise. *)
Definition M (A : Type) : Type := State → State * result A.

Definition ret {A : Type} (a : A) : M A := λ st, (st, Ok a).
Definition raise {A : Type} (e : exn) : M A := λ st, (st, Raise e).
Definition lift {A : Type} (r : result A) : M A := λ st, (st, r).
Definition bind {A B : Type} (m : M A) (k : A → M B) : M B :=
  λ st, match m st with
        | (st', Ok a) => k a st'
        | (st', Raise e) => (st', Raise e)
        end.

Notation "x <<- m ;; k" := (bind m (λ x, k))
  (at level 100, m at next level, right associativity, only parsing).
Notation "m ;;; k" := (bind m (λ _, k))
  (at level 100, right associativity, only parsing).

(** A computation that only adds to the record of calls. *)
Definition appends {A : Type} (m : M A) : Prop :=
  ∀ st, ∃ more, calls (m st).1 = calls st ++ more.

(** [result.cmd.run(self._win_id, args, count=count)] *)
Definition invoke (c : Command) (args : list string) (count : option Z) : M unit :=
  λ st,
    let '(h, d, r) :=
      cmd_run B c (_win_id self) args count (host st) (last_command st) in
    (MkState h d (calls st ++ [MkCall c (_win_id self) args count]), r).

(** [last_command[mode_manager.mode] = value] *)
Definition set_last_command (value : string * option Z) : M unit :=
  λ st,
    (MkState (host st) (<[mode B (host st) := value]> (last_command st))
       (calls st), Ok ()).

(** The names whose dispatch is not recorded. *)
Definition unrecorded : list string :=
  ["leave-mode"; "command-accept"; "repeat-command"].

(** [result.cmd.run(self._win_id, args, ...)]: looking up [run] on
    [None] raises [AttributeError]. *)
Definition invoke_cmd (result : ParseResult) (args : list string)
    (count : option Z) : M unit :=
  match Runners.cmd result with
  | Some c => invoke c args count
  | None => raise AttributeError
  end.

(** The body of the loop of [run] for one [result]. *)
Definition run_result (text : string) (count : option Z) (result : ParseResult)
  : M unit :=
  arglist <<- lift (match args result with
                    | Some l => Ok l
                    | None => Raise TypeError
                    end) ;;
  args <<- (λ st, (st, replace_variables B (host st) arglist)) ;;
  (match count with
   | Some n =>
       match Runners.count result with
       | Some _ =>
           raise (CommandMetaError "Got count via command and prefix!")
       | None => invoke_cmd result args (Some n)
       end
   | None =>
       match Runners.count result with
       | Some n => invoke_cmd result args (Some n)
       | None => invoke_cmd result args None
       end
   end) ;;;
  cmdline0 <<- lift (match cmdline result !! 0%nat with
                     | Some s => Ok s
                     | None => Raise IndexError
                     end) ;;
  if negb (Py.str_in cmdline0 unrecorded) then
    stripped <<- lift (_parse_count text) ;;
    set_last_command
      (stripped.2, match count with Some n => Some n | None => Runners.count result end)
  else ret ().

(** [for result in results: ...] *)
Fixpoint run_results (text : string) (count : option Z)
    (results : list ParseResult) : M unit :=
  match results with
  | [] => ret ()
  | result :: results' =>
      run_result text count result ;;; run_results text count results'
  end.

(** [run].  Parsing neither reads nor changes the state, so the lazy
    generator is consumed as the list of what it yields; the exception
    that ends it, if any, is raised once the results before it are
    dispatched. *)
Definition run (text : string) (count : option Z) : M unit :=
  let g := parse_all E self text true false false in
  run_results text count (yielded g) ;;;
  match raised g with
  | Some e => raise e
  | None => ret ()
  end.

End Dispatch.

(** *** The splitter and a registry to run the parser on *)

Module Split.

(** Modelled from the spec: part of [simple_split] below.  No division
    is left to make. *)
Definition spent (budget : option nat) : bool :=
  match budget with
  | Some O => true
  | _ => false
  end.

(** Modelled from the spec: part of [simple_split] below.  The pieces
    between the divisions, each with the white-space character that ended
    it ([None] for the last). *)
Fixpoint pieces (budget : option nat) (s : string)
  : list (string * option ascii) :=
  match s with
  | EmptyString => [(EmptyString, None)]
  | String c s' =>
      if Py.isspace c && negb (spent budget)
      then (EmptyString, Some c) :: pieces (Nat.pred <$> budget) s'
      else
        match pieces budget s' with
        | (h, e) :: t => (String c h, e) :: t
        | [] => [(String c EmptyString, None)]
        end
  end.

(** Modelled from the spec: part of [simple_split] below.  Without
    [keep]: the pieces that are not empty, the final one without the
    white space at its end. *)
Fixpoint tokens (ps : list (string * option ascii)) : list string :=
  match ps with
  | [] => []
  | (p, e) :: ps' =>
      let p := match e with None => Py.rstrip p | Some _ => p end in
      if Py.truth p then p :: tokens ps' else tokens ps'
  end.

(** Modelled from the spec: part of [simple_split] below.  With [keep]:
    white space met since the previous token ([ws]) goes in front of the
    next one; what is left at the end is a token of its own. *)
Fixpoint tokens_keep (ws : string) (ps : list (string * option ascii))
  : list string :=
  match ps with
  | [] => if Py.truth ws then [ws] else []
  | (p, e) :: ps' =>
      let sep := match e with Some c => String c EmptyString | None => EmptyString end in
      if Py.truth p then (ws +:+ p) :: tokens_keep sep ps'
      else tokens_keep (ws +:+ sep) ps'
  end.

(** Modelled from the spec: [simple_split] of [qutebrowser.misc.split],
    which the runner calls and whose source is not part of this
    development.  The spec gives its contract as
    [simpleSplit(text, keep, maxsplit=unbounded)], an ordered sequence of
    tokens, with a bounded variant that "limits how many times the
    argument string is divided, so later words remain joined verbatim in
    the final token" and a mode that keeps the white space.  Here the
    string is divided at each of its first [maxsplit] white-space
    characters (at all of them when there is no bound), empty pieces are
    dropped, and the final piece keeps its inner white space; with [keep]
    the white space stays in front of the token that follows it. *)
Definition simple_split (s : string) (keep : bool) (maxsplit : option Z)
  : list string :=
  let go budget :=
    if keep then tokens_keep EmptyString (pieces budget s)
    else tokens (pieces budget s) in
  match maxsplit with
  | None => go None
  | Some n =>
      if n <=? 0 then [if keep then s else Py.strip s]
      else go (Some (Z.to_nat n))
  end.

End Split.

(** A small registry and alias table.  Every command but [scroll] bounds
    its splits; for [scroll] the white-space splitter stands in for the
    quote-aware [split.split], with which it agrees on arguments without
    quotes and escapes. *)
Module Demo.

Definition open : Command := MkCommand "open" (Some 0) [] false.
Definition scroll : Command := MkCommand "scroll" None [] false.
Definition later : Command := MkCommand "later" (Some 1) [] true.
Definition leave_mode : Command := MkCommand "leave-mode" (Some 0) [] false.
Definition foo : Command := MkCommand "foo" (Some 1) ["-v"] false.
Definition foo0 : Command := MkCommand "foo0" (Some 0) ["-v"] false.

Definition env : Env :=
  MkEnv
    (list_to_map [("open", open); ("scroll", scroll); ("later", later);
                  ("leave-mode", leave_mode); ("foo", foo); ("foo0", foo0)])
    (list_to_map [("o", "open"); ("down", "scroll down")])
    (λ s keep, Split.simple_split s keep None)
    Split.simple_split.

Definition runner : CommandRunner := MkCommandRunner 0 false.
Definition partial_runner : CommandRunner := MkCommandRunner 0 true.

(** A window: its mode and its current URL, [inl] the encoded and the
    pretty rendering of a valid URL, [inr] the reason it is invalid. *)
Record Window : Type := MkWindow {
  win_mode : string;
  win_url : (string * string) + string
}.

Definition browser
  : Browser Window (string * string) string (gmap string (string * option Z)) :=
  MkBrowser
    win_url
    (λ u opts, if bool_decide (FullyEncoded ∈ opts) then u.1 else u.2)
    win_mode
    (λ c _ _ _ w d,
       if bool_decide (name c = "leave-mode")
       then (MkWindow "normal" (win_url w), d, Ok ())
       else (w, d, Ok ())).

(** A browser that renders URLs as [Qt.toString] does (no component of
    the URLs used needs recoding), with commands that do nothing, and a
    window that is its current URL. *)
Definition qt_browser
  : Browser (Qt.Url + string) Qt.Url string (gmap string (string * option Z)) :=
  MkBrowser id (Qt.toString (λ _ _, id)) (λ _, "normal") (λ _ _ _ _ w d, (w, d, Ok ())).

Definition qt_page : Qt.Url + string :=
  inl (Qt.MkUrl "https" (Some "a") (Some "b") "example.com/p").

Definition page : Window :=
  MkWindow "normal"
    (inl ("https://a@example.com/p%20q", "https://a@example.com/p q")).
Definition blank : Window := MkWindow "normal" (inr "").

Definition start (w : Window) : State (Host := Window) (Mode := string) :=
  MkState w ∅ [].

End Demo.

(** *** The wrappers around [run] *)

(** [''.join(l)] *)
Definition join (l : list string) : string := foldr String.append "" l.

(** A call [message.error(win_id, e, immediately=..., stack=...)];
    [immediately] is [false] when the call leaves it out, and the text of
    the stack trace is not kept. *)
Record Report : Type := MkReport {
  report_win_id : nat;
  report_exc : exn;
  report_immediately : bool
}.

(** Modelled from the spec: the classes of [cmdexc], which are not among
    the sources.  [except (cmdexc.CommandMetaError, cmdexc.CommandError)]
    catches the instances of the two classes and of their subclasses; the
    spec has [NoSuchCommand] among the errors that the wrappers report
    ("user gave an empty or unrecognized command name; recoverable,
    reported to the user") and gives [run] as failing with
    [CommandMetaError | CommandError], so [NoSuchCommandError] is a
    [CommandMetaError]. *)
Definition caught (e : exn) : bool :=
  match e with
  | NoSuchCommandError _ | CommandMetaError _ | CommandError _ => true
  | _ => false
  end.

Section Safely.

Context {Host QUrl Mode : Type} `{Countable Mode}.
Context (E : Env) (B : Browser Host QUrl Mode (gmap Mode (string * option Z)))
  (self : CommandRunner).

(** A call that [run] may make: in the runner's window, of a registered
    command, and with the caller's count when there is one. *)
Definition call_ok (count : option Z) (cl : Call) : Prop :=
  call_win_id cl = _win_id self ∧
  (∃ nm, cmd_dict E !! nm = Some (call_cmd cl)) ∧
  (∀ n, count = Some n → call_count cl = Some n).

(** What [run] may raise besides the errors of parsing: the error of the
    substitution, the clash of the two counts, and what a command
    raises. *)
Definition dispatch_error (e : exn) : Prop :=
  (∃ msg, e = CommandError msg) ∨
  e = CommandMetaError "Got count via command and prefix!" ∨
  (∃ c a n h d, (cmd_run B c (_win_id self) a n h d).2 = Raise e).

(** [run_safely]: the state of [run] and the messages reported so far
    (most recent last). *)
Definition run_safely (text : string) (count : option Z)
    (st : State (Host := Host) (Mode := Mode)) (reports : list Report)
  : State * list Report * result unit :=
  match run E B self text count st with
  | (st', Ok tt) => (st', reports, Ok tt)
  | (st', Raise e) =>
      if caught e
      then (st', reports ++ [MkReport (_win_id self) e true], Ok tt)
      else (st', reports, Raise e)
  end.

(** [run_safely_init] *)
Definition run_safely_init (text : string) (count : option Z)
    (st : State (Host := Host) (Mode := Mode)) (reports : list Report)
  : State * list Report * result unit :=
  match run E B self text count st with
  | (st', Ok tt) => (st', reports, Ok tt)
  | (st', Raise e) =>
      if caught e
      then (st', reports ++ [MkReport (_win_id self) e false], Ok tt)
      else (st', reports, Raise e)
  end.

End Safely.

End Runners.
Import Runners.

(** * Properties *)

(** ** The string methods on examples *)

Example split_ex : Py.split "  ab  c d " = ["ab"; "c"; "d"].
Proof. reflexivity. Qed.

Example split_max_ex : Py.split_max 1 (Py.strip " ab  c d ") = ["ab"; "c d"].
Proof. reflexivity. Qed.

Example split2_ex : Py.split2 ";" "a;;b;;;c;" = ["a"; "b"; ";c;"].
Proof. reflexivity. Qed.

Example partition_ex : Py.partition " " "ab  c" = ("ab", " ", " c").
Proof. reflexivity. Qed.

Example int_ex : Py.int " -12" = Some (-12) ∧ Py.int "x" = None ∧ Py.int "" = None.
Proof. repeat split; reflexivity. Qed.

Example int_space_ex :
  Py.int (String "028" "3") = None ∧ Py.int (String "009" "3 ") = Some 3 ∧
  Py.int "1_000" = Some 1000 ∧ Py.int "_1" = None ∧ Py.int "1__0" = None ∧
  Py.int "1_" = None ∧ Py.int "+" = None ∧ Py.int "- 1" = None.
Proof. repeat split; reflexivity. Qed.

(** ** Facts about the string methods *)

Section PyFacts.

Lemma char_eqb_true a b : Py.char_eqb a b = true ↔ a = b.
Proof. unfold Py.char_eqb. apply bool_decide_eq_true. Qed.

Lemma char_eqb_refl a : Py.char_eqb a a = true.
Proof. by apply char_eqb_true. Qed.

(** Where the separator does not occur, [partition] returns the string
    and two empty strings. *)
Lemma partition_absent sep s :
  Py.contains sep s = false → Py.partition sep s = (s, "", "").
Proof.
  induction s as [|c s IH]; simpl; [done|].
  destruct (Py.char_eqb c sep); simpl; [done|].
  intros Hs. by rewrite (IH Hs).
Qed.

(** [partition] cuts at the first occurrence of the separator. *)
Lemma partition_first sep pre rest :
  Py.contains sep pre = false →
  Py.partition sep (pre +:+ String sep rest) = (pre, String sep "", rest).
Proof.
  induction pre as [|c pre IH]; simpl.
  - by rewrite char_eqb_refl.
  - destruct (Py.char_eqb c sep); simpl; [done|].
    intros Hp. by rewrite (IH Hp).
Qed.

(** A string that contains the separator is a part without it, the
    separator, and a rest. *)
Lemma contains_cut sep s :
  Py.contains sep s = true →
  ∃ pre rest, s = pre +:+ String sep rest ∧ Py.contains sep pre = false.
Proof.
  induction s as [|c s IH]; simpl; [done|].
  destruct (Py.char_eqb c sep) eqn:Hc; simpl.
  - intros _. apply char_eqb_true in Hc as ->. by exists "", s.
  - intros [pre [rest [-> Hp]]]%IH.
    exists (String c pre), rest. simpl. by rewrite Hc.
Qed.

Lemma contains_app_sep sep pre rest :
  Py.contains sep (pre +:+ String sep rest) = true.
Proof.
  induction pre as [|c pre IH]; simpl.
  - by rewrite char_eqb_refl.
  - rewrite IH. apply orb_true_r.
Qed.

(** [split] on the doubled separator always has a first element. *)
Lemma split2_nonempty sep s : ∃ first rest, Py.split2 sep s = first :: rest.
Proof.
  induction s as [|c s IH]; simpl; [by eexists _, _|].
  destruct IH as [f [r ->]].
  destruct s as [|c' s'']; [by eexists _, _|].
  destruct (_ && _); by eexists _, _.
Qed.

(** A text that strips to nothing has no words. *)
Lemma split_max_blank n s : Py.strip s = "" → Py.split_max n (Py.strip s) = [].
Proof. intros ->. by destruct n. Qed.

End PyFacts.

(** ** Facts about the parser *)

Section ParserFacts.

Context (E : Env) (self : CommandRunner).

(** [_parse_count] on a string without a colon. *)
Lemma _parse_count_no_colon cmdstr :
  Py.contains ":" cmdstr = false → _parse_count cmdstr = Ok (None, cmdstr).
Proof. intros Hc. unfold _parse_count. by rewrite Hc. Qed.

(** [_parse_count] cuts at the first colon. *)
Lemma _parse_count_colon pre rest :
  Py.contains ":" pre = false →
  _parse_count (pre +:+ String ":" rest) = Ok (Py.int pre, rest).
Proof.
  intros Hp. unfold _parse_count, Py.split_char_max1.
  by rewrite contains_app_sep, (partition_first _ _ _ Hp).
Qed.

(** The unpacking in [_parse_count] cannot fail. *)
Lemma _parse_count_total cmdstr :
  ∃ count rest, _parse_count cmdstr = Ok (count, rest).
Proof.
  destruct (Py.contains ":" cmdstr) eqn:Hc.
  - apply contains_cut in Hc as [pre [rest [-> Hp]]].
    eexists _, _. by apply _parse_count_colon.
  - eexists _, _. by apply _parse_count_no_colon.
Qed.

(** With [aliases=False] the body of [parse] makes no recursive call. *)
Lemma parse_body_no_aliases reparse reparse' text fallback keep :
  parse_body E self reparse text false fallback keep =
  parse_body E self reparse' text false fallback keep.
Proof.
  unfold parse_body.
  destruct (Py.partition " " text) as [[cmdstr sep] argstr].
  destruct (_parse_count cmdstr) as [[count cmdstr']|e]; simpl; [|done].
  by destruct (negb (Py.truth cmdstr') && negb fallback).
Qed.

(** The body of [parse] only depends on what the recursive call
    returns. *)
Lemma parse_body_ext reparse reparse' text aliases fallback keep :
  (∀ t f k, reparse t f k = reparse' t f k) →
  parse_body E self reparse text aliases fallback keep =
  parse_body E self reparse' text aliases fallback keep.
Proof.
  intros Hr. unfold parse_body.
  destruct (Py.partition " " text) as [[cmdstr sep] argstr].
  destruct (_parse_count cmdstr) as [[count cmdstr']|e]; simpl; [|done].
  destruct (negb (Py.truth cmdstr') && negb fallback); [done|].
  destruct aliases; simpl; [|done].
  destruct (_get_alias E text) as [[new_cmd|]|e]; simpl; by rewrite ?Hr.
Qed.

(** [parse] satisfies the recursive equation of the source: its body,
    with [self.parse(_, aliases=False, ...)] for the recursive call. *)
Lemma parse_unfold text aliases fallback keep :
  parse E self text aliases fallback keep =
  parse_body E self (λ t f k, parse E self t false f k)
    text aliases fallback keep.
Proof.
  unfold parse at 1. apply parse_body_ext. intros t f k.
  unfold parse, parse_no_aliases. apply parse_body_no_aliases.
Qed.

Lemma parse_no_aliases_eq text fallback keep :
  parse E self text false fallback keep = parse_no_aliases E self text fallback keep.
Proof. unfold parse, parse_no_aliases. apply parse_body_no_aliases. Qed.

End ParserFacts.

Section ParserProperties.

Context (E : Env) (self : CommandRunner).

Lemma prefix_refl s : String.prefix s s = true.
Proof.
  induction s as [|c s IH]; simpl; [done|].
  by destruct (Ascii.ascii_dec c c).
Qed.

(** A registered name is its own completion: it is among the matches, so
    a single match is that name. *)
Lemma _completion_match_registered cmdstr c :
  cmd_dict E !! cmdstr = Some c → _completion_match E cmdstr = cmdstr.
Proof.
  intros Hc. unfold _completion_match.
  assert (Hin : In cmdstr
            (List.filter (Py.find_is_0 cmdstr) (fst <$> map_to_list (cmd_dict E)))).
  { apply filter_In. split; [|apply prefix_refl].
    apply list_elem_of_In, list_elem_of_fmap. exists (cmdstr, c).
    split; [done|]. by apply elem_of_map_to_list. }
  destruct (List.filter _ _) as [|m [|m' l]]; [done| |done].
  destruct Hin as [->|[]]. done.
Qed.

(** The command line of a resolved command starts with its name. *)
Lemma cmdline_head (keep : bool) (cmdstr sep : string) (args : list string) :
  match keep, args with
  | true, args0 :: args' => [cmdstr; sep +:+ args0] ++ args'
  | true, [] => [cmdstr; sep]
  | false, _ => [cmdstr] ++ args
  end !! 0%nat = Some cmdstr.
Proof. by destruct keep, args. Qed.

(** What [parse] returns for a text without alias whose command token,
    after the count prefix, is a registered name. *)
Lemma parse_registered text aliases fallback keep cmdstr0 sep argstr count cmdstr c :
  Py.partition " " text = (cmdstr0, sep, argstr) →
  _parse_count cmdstr0 = Ok (count, cmdstr) →
  Py.truth cmdstr = true →
  (aliases = true → _get_alias E text = Ok None) →
  cmd_dict E !! cmdstr = Some c →
  ∃ r, parse E self text aliases fallback keep = Ok r ∧
       Runners.count r = count ∧ cmd r = Some c ∧
       args r = Some (_split_args E c argstr keep) ∧
       cmdline r !! 0%nat = Some cmdstr.
Proof.
  intros Hpart Hcount Htruth Halias Hc. unfold parse, parse_body.
  rewrite Hpart, Hcount. simpl. rewrite Htruth. simpl.
  assert ((if aliases then _get_alias E text else Ok None) = Ok None) as ->.
  { destruct aliases; [by apply Halias|done]. }
  simpl.
  assert ((if _partial_match self then _completion_match E cmdstr else cmdstr)
          = cmdstr) as ->.
  { destruct (_partial_match self); [|done].
    by eapply _completion_match_registered. }
  rewrite Hc. eexists. split; [done|]. simpl.
  repeat split; [done..|]. apply cmdline_head.
Qed.

Lemma parse_body_paired reparse text aliases fallback keep r :
  (∀ t f k r', reparse t f k = Ok r' → paired r') →
  parse_body E self reparse text aliases fallback keep = Ok r → paired r.
Proof.
  intros Hre. unfold parse_body.
  destruct (Py.partition " " text) as [[cmdstr0 sep] argstr].
  destruct (_parse_count cmdstr0) as [[count cmdstr]|e]; simpl; [|done].
  destruct (negb (Py.truth cmdstr) && negb fallback); [done|].
  destruct (if aliases then _get_alias E text else Ok None)
    as [[new_cmd|]|e]; simpl; [by apply Hre| |done].
  destruct (cmd_dict E !! _) as [c|].
  - intros [= <-]. right. simpl. eauto.
  - destruct (negb fallback); [done|]. intros [= <-]. by left.
Qed.

Lemma parse_paired text aliases fallback keep r :
  parse E self text aliases fallback keep = Ok r → paired r.
Proof.
  apply parse_body_paired. intros t f k r'.
  apply parse_body_paired. done.
Qed.

(** With [fallback=False] a result always has a command and arguments. *)
Lemma parse_body_resolved reparse text aliases keep r :
  (∀ t k r', reparse t false k = Ok r' → is_Some (cmd r') ∧ is_Some (args r')) →
  parse_body E self reparse text aliases false keep = Ok r →
  is_Some (cmd r) ∧ is_Some (args r).
Proof.
  intros Hre. unfold parse_body.
  destruct (Py.partition " " text) as [[cmdstr0 sep] argstr].
  destruct (_parse_count cmdstr0) as [[count cmdstr]|e]; simpl; [|done].
  destruct (Py.truth cmdstr); simpl; [|done].
  destruct (if aliases then _get_alias E text else Ok None)
    as [[new_cmd|]|e]; simpl; [by apply Hre| |done].
  destruct (cmd_dict E !! _) as [c|]; [|done].
  intros [= <-]. simpl. eauto.
Qed.

Lemma parse_resolved text aliases keep r :
  parse E self text aliases false keep = Ok r →
  is_Some (cmd r) ∧ is_Some (args r).
Proof.
  apply parse_body_resolved. intros t k r'.
  apply parse_body_resolved. done.
Qed.

(** What a [yield_each] generator yields are results of [f]. *)
Lemma yield_each_yielded {A B : Type} (f : A → result B) (xs : list A) (b : B) :
  b ∈ yielded (yield_each f xs) → ∃ x, x ∈ xs ∧ f x = Ok b.
Proof.
  induction xs as [|x xs IH]; simpl; [by intros ?%elem_of_nil|].
  destruct (f x) as [b'|e] eqn:Hf; simpl; [|by intros ?%elem_of_nil].
  intros [->|Hb]%elem_of_cons.
  - exists x. split; [left|done].
  - destruct (IH Hb) as [x' [Hx' Hfx']]. exists x'. split; [by right|done].
Qed.

(** The texts without command token fail before any expansion. *)
Lemma parse_empty_token text aliases keep cmdstr0 sep argstr count :
  Py.partition " " text = (cmdstr0, sep, argstr) →
  _parse_count cmdstr0 = Ok (count, "") →
  parse E self text aliases false keep =
    Raise (NoSuchCommandError "No command given").
Proof.
  intros Hpart Hcount. unfold parse, parse_body. by rewrite Hpart, Hcount.
Qed.

(** A text that strips to nothing makes [_get_alias] index an empty
    list. *)
Lemma _get_alias_blank text :
  Py.strip text = "" → _get_alias E text = Raise IndexError.
Proof. intros Hs. unfold _get_alias. by rewrite (split_max_blank _ _ Hs). Qed.

(** With [aliases] and [fallback] both on, such a text gets past the
    check for an empty command and raises [IndexError]. *)
Lemma parse_blank_fallback text keep :
  Py.strip text = "" →
  parse E self text true true keep = Raise IndexError.
Proof.
  intros Hs. unfold parse, parse_body.
  destruct (Py.partition " " text) as [[cmdstr0 sep] argstr].
  destruct (_parse_count_total cmdstr0) as [count [cmdstr ->]]. simpl.
  rewrite andb_false_r. by rewrite (_get_alias_blank _ Hs).
Qed.

(** A first segment that falls back to a result without command makes
    [parse_all] raise [AttributeError] before it yields anything. *)
Lemma parse_all_fallback_first text aliases fallback keep first rest r :
  Py.contains2 ";" text = true →
  Py.split2 ";" text = first :: rest →
  parse E self first aliases fallback keep = Ok r →
  cmd r = None →
  parse_all E self text aliases fallback keep = MkGen [] (Some AttributeError).
Proof.
  intros Hc Hs Hp Hn. unfold parse_all, sub_texts.
  rewrite Hc, Hs. simpl. rewrite Hp. simpl. by rewrite Hn.
Qed.

End ParserProperties.

(** ** Count prefix, empty command, result invariant *)

(** C7: [parse("3:foo bar")] has count 3 and command token [foo], and
    [parse("x:foo bar")] has no count and the same token, for every
    registry that knows [foo] and every alias table without the two first
    words.  In general [_parse_count] cuts its argument at the first
    colon, the count being the integer before it or [None] when that is
    no integer, and never raises. *)
Theorem parse_count_prefix (E : Env) (self : CommandRunner)
    (fallback keep : bool) (c : Command) :
  cmd_dict E !! "foo" = Some c →
  aliases E !! "3:foo" = None →
  aliases E !! "x:foo" = None →
  (∃ r, parse E self "3:foo bar" true fallback keep = Ok r ∧
        count r = Some 3 ∧ cmd r = Some c ∧ cmdline r !! 0%nat = Some "foo") ∧
  (∃ r, parse E self "x:foo bar" true fallback keep = Ok r ∧
        count r = None ∧ cmd r = Some c ∧ cmdline r !! 0%nat = Some "foo") ∧
  (∀ pre rest, Py.contains ":" pre = false →
     _parse_count (pre +:+ String ":" rest) = Ok (Py.int pre, rest)) ∧
  (∀ cmdstr, ∃ count rest, _parse_count cmdstr = Ok (count, rest)).
Proof.
  intros Hfoo H3 Hx. repeat split.
  - destruct (parse_registered E self "3:foo bar" true fallback keep
                "3:foo" " " "bar" (Some 3) "foo" c) as [r (Hr & ? & ? & _ & ?)];
      [done..| |done|by exists r].
    intros _. unfold _get_alias. simpl. by rewrite H3.
  - destruct (parse_registered E self "x:foo bar" true fallback keep
                "x:foo" " " "bar" None "foo" c) as [r (Hr & ? & ? & _ & ?)];
      [done..| |done|by exists r].
    intros _. unfold _get_alias. simpl. by rewrite Hx.
  - apply _parse_count_colon.
  - apply _parse_count_total.
Qed.

Lemma parse_count_prefix_witness :
  (∃ r, parse Demo.env Demo.runner "3:foo bar" true false false = Ok r ∧
        count r = Some 3 ∧ cmd r = Some Demo.foo ∧
        cmdline r !! 0%nat = Some "foo") ∧
  (∃ r, parse Demo.env Demo.runner "x:foo bar" true false false = Ok r ∧
        count r = None ∧ cmd r = Some Demo.foo ∧
        cmdline r !! 0%nat = Some "foo").
Proof.
  pose proof (parse_count_prefix Demo.env Demo.runner false false Demo.foo
                eq_refl eq_refl eq_refl) as (H3 & Hx & _).
  exact (conj H3 Hx).
Defined.

(** C9: a text whose command token is empty once the text is partitioned
    at its first space and the count prefix is cut off fails, with
    [fallback=False], with [NoSuchCommandError("No command given")],
    whatever [aliases] and [keep] are. *)
Theorem parse_no_command_given (E : Env) (self : CommandRunner)
    (text : string) (aliases keep : bool)
    (cmdstr sep argstr : string) (count : option Z) :
  Py.partition " " text = (cmdstr, sep, argstr) →
  _parse_count cmdstr = Ok (count, "") →
  parse E self text aliases false keep =
    Raise (NoSuchCommandError "No command given").
Proof. apply parse_empty_token. Qed.

Lemma parse_no_command_given_witness :
  parse Demo.env Demo.runner "" true false false =
    Raise (NoSuchCommandError "No command given") ∧
  parse Demo.env Demo.runner " " true false false =
    Raise (NoSuchCommandError "No command given").
Proof.
  split.
  - apply (parse_no_command_given Demo.env Demo.runner "" true false
             "" "" "" None); reflexivity.
  - apply (parse_no_command_given Demo.env Demo.runner " " true false
             "" " " "" None); reflexivity.
Defined.

(** C10: a [ParseResult] returned by [parse] or yielded by [parse_all],
    whatever the options, that has no command has no arguments either. *)
Theorem parse_result_invariant (E : Env) (self : CommandRunner)
    (text : string) (aliases fallback keep : bool) (r : ParseResult) :
  parse E self text aliases fallback keep = Ok r ∨
  r ∈ yielded (parse_all E self text aliases fallback keep) →
  cmd r = None → args r = None.
Proof.
  intros Hr Hnone.
  assert (Hp : paired r).
  { destruct Hr as [Hr|Hr]; [by eapply parse_paired|].
    unfold parse_all in Hr.
    destruct (sub_texts _ _ _ _ _ _) as [subs|e]; simpl in Hr;
      [|by apply elem_of_nil in Hr].
    apply yield_each_yielded in Hr as [sub [_ Hsub]].
    by eapply parse_paired. }
  destruct Hp as [[_ Ha]|[[c Hc] _]]; [done|congruence].
Qed.

Lemma parse_result_invariant_witness :
  args (MkParseResult None None ["2:nope"; "arg"] (Some 2)) = None.
Proof.
  apply (parse_result_invariant Demo.env Demo.runner "2:nope arg"
           true true false).
  - left. reflexivity.
  - reflexivity.
Defined.

(** ** Exceptions other than [NoSuchCommandError] *)

(** C1 (fails on the code): [parse] and [parse_all] are to raise nothing
    but [NoSuchCommandError].  With [aliases] and [fallback] both on, the
    empty text and the text of one space make [_get_alias] raise
    [IndexError], for every registry and alias table; and with [fallback]
    on, a chain whose first segment is no registered command makes
    [parse_all] raise [AttributeError]. *)
Theorem parse_raises_other_exceptions :
  (∀ E self keep, parse E self "" true true keep = Raise IndexError) ∧
  (∀ E self keep, parse E self " " true true keep = Raise IndexError) ∧
  parse_all Demo.env Demo.runner "nope;;open" true true false =
    MkGen [] (Some AttributeError).
Proof.
  split; [|split].
  - intros E self keep. by apply parse_blank_fallback.
  - intros E self keep. by apply parse_blank_fallback.
  - by apply (parse_all_fallback_first Demo.env Demo.runner "nope;;open"
                true true false "nope" ["open"]
                (MkParseResult None None ["nope"] None)).
Qed.

(** ** Alias expansion *)

(** C4 as stated fails: in ["3:o"] the command token after the count
    prefix is [o], an alias for [open], yet [parse] looks up the first
    word ["3:o"] as it is written, finds no alias and fails on the
    unknown command [o], where re-parsing the replacement succeeds. *)
Lemma alias_lookup_includes_count_prefix :
  Py.partition " " "3:o" = ("3:o", "", "") ∧
  _parse_count "3:o" = Ok (Some 3, "o") ∧
  aliases Demo.env !! "o" = Some "open" ∧
  parse Demo.env Demo.runner "3:o" true false false =
    Raise (NoSuchCommandError "o: no such command") ∧
  parse Demo.env Demo.runner "open" false false false =
    Ok (MkParseResult (Some Demo.open) (Some []) ["open"] None) ∧
  parse Demo.env Demo.runner "3:o" true false false ≠
    parse Demo.env Demo.runner "open" false false false.
Proof. repeat split; done. Qed.

(** C4, amended: the name looked up is the first white-space delimited
    word of the text, count prefix included.  When the text passes the
    check for an empty command and that word is in the alias table,
    [parse] with [aliases=True] returns what [parse] with [aliases=False]
    returns for the replacement, followed by a space and the rest of the
    stripped text when there is one, and by a space when the text ends
    with one.  With [aliases=False] the alias table is not consulted. *)
Theorem parse_alias_expansion (E : Env) (self : CommandRunner) :
  (∀ text fallback keep cmdstr0 sep argstr count cmdstr parts0 parts alias,
     Py.partition " " text = (cmdstr0, sep, argstr) →
     _parse_count cmdstr0 = Ok (count, cmdstr) →
     cmdstr ≠ "" ∨ fallback = true →
     Py.split_max 1 (Py.strip text) = parts0 :: parts →
     aliases E !! parts0 = Some alias →
     let new_cmd :=
       match parts with
       | parts1 :: _ => alias +:+ " " +:+ parts1
       | [] => alias
       end in
     let new_cmd := if Py.endswith " " text then new_cmd +:+ " " else new_cmd in
     parse E self text true fallback keep =
       parse E self new_cmd false fallback keep) ∧
  (∀ text fallback keep table,
     parse E self text false fallback keep =
       parse (MkEnv (cmd_dict E) table (split_split E) (split_simple_split E))
         self text false fallback keep).
Proof.
  split.
  - intros text fallback keep cmdstr0 sep argstr count cmdstr parts0 parts alias
      Hpart Hcount Hcheck Hsplit Halias new_cmd new_cmd'.
    rewrite (parse_no_aliases_eq E self new_cmd').
    unfold parse at 1. unfold parse_body at 1. rewrite Hpart, Hcount. simpl.
    assert (negb (Py.truth cmdstr) && negb fallback = false) as ->.
    { destruct Hcheck as [Hne| ->]; [|apply andb_false_r].
      by destruct cmdstr. }
    unfold _get_alias. rewrite Hsplit. simpl. rewrite Halias. simpl.
    subst new_cmd' new_cmd. by destruct parts.
  - intros text fallback keep table. unfold parse, parse_body. simpl.
    destruct (Py.partition " " text) as [[cmdstr0 sep] argstr].
    by destruct (_parse_count cmdstr0) as [[count cmdstr]|e].
Qed.

Lemma parse_alias_expansion_witness :
  parse Demo.env Demo.runner " down " true true false =
    parse Demo.env Demo.runner "scroll down " false true false ∧
  parse Demo.env Demo.runner "o  http://x.org  y" true false false =
    parse Demo.env Demo.runner "open http://x.org  y" false false false.
Proof.
  split.
  - apply (proj1 (parse_alias_expansion Demo.env Demo.runner)
             " down " true false "" " " "down " None "" "down" []
             "scroll down");
      [reflexivity | reflexivity | by right | reflexivity | reflexivity].
  - apply (proj1 (parse_alias_expansion Demo.env Demo.runner)
             "o  http://x.org  y" false false "o" " " " http://x.org  y"
             None "o" "o" ["http://x.org  y"] "open");
      [reflexivity | reflexivity | by left | reflexivity | reflexivity].
Defined.

(** ** Chained commands *)

(** C6 as stated fails: in [" open;;scroll"] the separator occurs and the
    first segment resolves to no command with [no_cmd_split], so the
    parses of the trimmed segments [open] and [scroll] are to be yielded;
    but the first segment is parsed untrimmed, its leading space leaves
    the command token empty, and [parse_all] raises without yielding. *)
Lemma parse_all_untrimmed_first :
  Py.contains2 ";" " open;;scroll" = true ∧
  Py.strip <$> Py.split2 ";" " open;;scroll" = ["open"; "scroll"] ∧
  yield_each (λ sub, parse Demo.env Demo.runner sub true false false)
    ["open"; "scroll"] =
    MkGen [MkParseResult (Some Demo.open) (Some []) ["open"] None;
           MkParseResult (Some Demo.scroll) (Some []) ["scroll"] None] None ∧
  parse_all Demo.env Demo.runner " open;;scroll" true false false =
    MkGen [] (Some (NoSuchCommandError "No command given")) ∧
  parse_all Demo.env Demo.runner " open;;scroll" true false false ≠
    yield_each (λ sub, parse Demo.env Demo.runner sub true false false)
      (Py.strip <$> Py.split2 ";" " open;;scroll").
Proof. repeat split; done. Qed.

(** C6, amended: without [";;"] in the text, [parse_all] yields the one
    result of [parse(text)] (or raises what it raises).  With [";;"], the
    text before the first separator is parsed first, untrimmed: when that
    fails, [parse_all] raises the same exception and yields nothing; when
    it resolves to a command with [no_cmd_split], [parse_all] yields the
    single parse of the whole text; when it resolves to a command without
    it, [parse_all] yields in order the parse of every trimmed segment of
    the text split at [";;"]. *)
Theorem parse_all_chain (E : Env) (self : CommandRunner)
    (text : string) (aliases fallback keep : bool) :
  let parse' := λ sub, parse E self sub aliases fallback keep in
  let single :=
    match parse' text with
    | Ok r => MkGen [r] None
    | Raise e => MkGen [] (Some e)
    end in
  (Py.contains2 ";" text = false →
   parse_all E self text aliases fallback keep = single) ∧
  (∀ first rest,
     Py.contains2 ";" text = true →
     Py.split2 ";" text = first :: rest →
     (∀ e, parse' first = Raise e →
        parse_all E self text aliases fallback keep = MkGen [] (Some e)) ∧
     (∀ r c, parse' first = Ok r → cmd r = Some c → no_cmd_split c = true →
        parse_all E self text aliases fallback keep = single) ∧
     (∀ r c, parse' first = Ok r → cmd r = Some c → no_cmd_split c = false →
        parse_all E self text aliases fallback keep =
          yield_each parse' (Py.strip <$> Py.split2 ";" text))).
Proof.
  intros parse' single. subst parse' single. unfold parse_all, sub_texts. split.
  - intros ->. simpl. by destruct (parse E self text _ _ _).
  - intros first rest -> Hs. rewrite Hs. simpl. repeat split.
    + by intros e ->.
    + intros r c -> Hc Hn. simpl. rewrite Hc, Hn. simpl.
      by destruct (parse E self text _ _ _).
    + intros r c -> Hc Hn. simpl. by rewrite Hc, Hn.
Qed.

Lemma parse_all_chain_witness :
  parse_all Demo.env Demo.runner "open" true false false =
    MkGen [MkParseResult (Some Demo.open) (Some []) ["open"] None] None ∧
  parse_all Demo.env Demo.runner "nope;;open" true false false =
    MkGen [] (Some (NoSuchCommandError "nope: no such command")) ∧
  parse_all Demo.env Demo.runner "later 5 open ;; scroll" true false false =
    MkGen [MkParseResult (Some Demo.later) (Some ["5"; "open ;; scroll"])
             ["later"; "5"; "open ;; scroll"] None] None ∧
  parse_all Demo.env Demo.runner "open ;; scroll" true false false =
    MkGen [MkParseResult (Some Demo.open) (Some []) ["open"] None;
           MkParseResult (Some Demo.scroll) (Some []) ["scroll"] None] None.
Proof.
  split; [|split; [|split]].
  - apply (proj1 (parse_all_chain Demo.env Demo.runner "open" true false false)).
    reflexivity.
  - apply (proj1 (proj2 (parse_all_chain Demo.env Demo.runner "nope;;open"
                           true false false) "nope" ["open"] eq_refl eq_refl)).
    reflexivity.
  - apply (proj1 (proj2 (proj2 (parse_all_chain Demo.env Demo.runner
                                  "later 5 open ;; scroll" true false false)
                           "later 5 open " [" scroll"] eq_refl eq_refl))
             (MkParseResult (Some Demo.later) (Some ["5"; "open"])
                ["later"; "5"; "open"] None) Demo.later);
      reflexivity.
  - apply (proj2 (proj2 (proj2 (parse_all_chain Demo.env Demo.runner
                                  "open ;; scroll" true false false)
                           "open " [" scroll"] eq_refl eq_refl))
             (MkParseResult (Some Demo.open) (Some []) ["open"] None)
             Demo.open);
      reflexivity.
Defined.

(** ** Bounded splitting *)

Section SplitArgs.

Context (E : Env) (cmd : Command) (cmd_maxsplit : Z)
  (argstr : string) (keep : bool) (split_args : list string).

(** The loop over flags only ends without a second split. *)
Lemma _split_args_loop_flags flags i flag_arg_count :
  Forall (λ a, Py.startswith "-" (Py.strip a) = true) flags →
  _split_args_loop E cmd cmd_maxsplit argstr keep split_args
    i flag_arg_count flags = split_args.
Proof.
  intros Hflags. revert i flag_arg_count.
  induction Hflags as [|a flags Ha _ IH]; intros i n; simpl; [done|].
  rewrite Ha. by destruct (Py.str_in _ _).
Qed.

(** The loop stops at the first token that is no flag and splits again,
    with the index of that token, the command's [maxsplit] and the number
    of flags with an argument met before it added up. *)
Lemma _split_args_loop_first flags tok rest i flag_arg_count :
  Forall (λ a, Py.startswith "-" (Py.strip a) = true) flags →
  Py.startswith "-" (Py.strip tok) = false →
  _split_args_loop E cmd cmd_maxsplit argstr keep split_args
    i flag_arg_count (flags ++ tok :: rest) =
  split_simple_split E argstr keep
    (Some (Z.of_nat (i + length flags) + cmd_maxsplit +
           Z.of_nat (flag_arg_count +
             length (List.filter
                       (λ a, Py.str_in (Py.strip a) (flags_with_args cmd))
                       flags)))).
Proof.
  intros Hflags Htok. revert i flag_arg_count.
  induction Hflags as [|a flags Ha _ IH]; intros i n; simpl.
  - rewrite Htok. do 3 f_equal; lia.
  - rewrite Ha. destruct (Py.str_in _ _); rewrite IH; simpl;
      do 3 f_equal; lia.
Qed.

End SplitArgs.

(** C2 as stated fails: for the command [foo] with [maxsplit=1] and
    [-v] among its flags with an argument, ["--flag -v bar baz qux"] is
    split again with [maxsplit = 2 + 1 + 1 = 4] and so into all of its
    five words; the last two are not joined. *)
Lemma split_args_example_five_tokens :
  maxsplit Demo.foo = Some 1 ∧
  "-v" ∈ flags_with_args Demo.foo ∧
  _split_args Demo.env Demo.foo "--flag -v bar baz qux" false =
    ["--flag"; "-v"; "bar"; "baz"; "qux"] ∧
  _split_args Demo.env Demo.foo "--flag -v bar baz qux" false ≠
    ["--flag"; "-v"; "bar"; "baz qux"].
Proof. repeat split; [apply list_elem_of_here|done..]. Qed.

(** C2, amended: when the first split of a non-empty argument string
    meets a token that does not start with a dash, [_split_args] returns
    the argument string split again with [maxsplit] equal to the index of
    that token plus the command's [maxsplit] plus the number of flags with
    an argument seen before it, whatever the splitter is.  On the
    example, with the splitter of the spec, that is [maxsplit = 4] and
    the five words for a command with [maxsplit=1]; the list
    [--flag, -v, bar, baz qux], whose last token takes in the rest as it
    is written, is what a command with [maxsplit=0] gets. *)
Theorem split_args_bounded :
  (∀ (E : Env) (cmd : Command) (n : Z) (argstr : string) (keep : bool)
     (flags : list string) (tok : string) (rest : list string),
     argstr ≠ "" →
     maxsplit cmd = Some n →
     split_simple_split E argstr keep None = flags ++ tok :: rest →
     Forall (λ a, Py.startswith "-" (Py.strip a) = true) flags →
     Py.startswith "-" (Py.strip tok) = false →
     _split_args E cmd argstr keep =
       split_simple_split E argstr keep
         (Some (Z.of_nat (length flags) + n +
                Z.of_nat (length (List.filter
                            (λ a, Py.str_in (Py.strip a) (flags_with_args cmd))
                            flags))))) ∧
  _split_args Demo.env Demo.foo "--flag -v bar baz qux" false =
    Split.simple_split "--flag -v bar baz qux" false (Some 4) ∧
  _split_args Demo.env Demo.foo "--flag -v bar baz qux" false =
    ["--flag"; "-v"; "bar"; "baz"; "qux"] ∧
  _split_args Demo.env Demo.foo0 "--flag -v bar baz  qux" false =
    ["--flag"; "-v"; "bar"; "baz  qux"].
Proof.
  split; [|done].
  intros E cmd n argstr keep flags tok rest Hne Hmax Hsplit Hflags Htok.
  unfold _split_args. destruct argstr; [done|]. rewrite Hmax, Hsplit.
  by rewrite (_split_args_loop_first E cmd n _ keep _ flags tok rest 0 0).
Qed.

Lemma split_args_bounded_witness :
  _split_args Demo.env Demo.foo0 "--flag -v bar baz qux" false =
    Split.simple_split "--flag -v bar baz qux" false (Some 3).
Proof.
  apply (proj1 split_args_bounded Demo.env Demo.foo0 0
           "--flag -v bar baz qux" false ["--flag"; "-v"] "bar" ["baz"; "qux"]);
    [done | reflexivity | reflexivity | | reflexivity].
  repeat constructor.
Defined.

(** ** Variable substitution *)

Section Variables.

Context {Host QUrl Mode Dict : Type} (B : Browser Host QUrl Mode Dict).

(** What an argument becomes when the current URL is [u]. *)
Lemma replace_variables_loop_bound (url pretty_url : string) (arglist : list string)
    (ourl opretty : option string) :
  ("{url}" ∈ arglist → ourl = Some url) →
  ("{url:pretty}" ∈ arglist → opretty = Some pretty_url) →
  replace_variables_loop ourl opretty arglist =
    Ok ((λ arg, if bool_decide (arg = "{url}") then url
                else if bool_decide (arg = "{url:pretty}") then pretty_url
                else arg) <$> arglist).
Proof.
  induction arglist as [|arg arglist IH]; intros Hu Hp; simpl; [done|].
  rewrite IH; [|intros; apply Hu; by right|intros; apply Hp; by right].
  repeat case_bool_decide; subst; simpl.
  - rewrite Hu; [done|by left].
  - rewrite Hp; [done|by left].
  - done.
Qed.

(** Without placeholder the loop copies the list. *)
Lemma replace_variables_loop_plain (arglist : list string)
    (ourl opretty : option string) :
  "{url}" ∉ arglist → "{url:pretty}" ∉ arglist →
  replace_variables_loop ourl opretty arglist = Ok arglist.
Proof.
  induction arglist as [|arg arglist IH]; intros Hu Hp; simpl; [done|].
  apply not_elem_of_cons in Hu as [Hu1 Hu2].
  apply not_elem_of_cons in Hp as [Hp1 Hp2].
  rewrite (IH Hu2 Hp2). by rewrite !bool_decide_eq_false_2.
Qed.

End Variables.

Lemma append_nil_r s : s +:+ "" = s.
Proof.
  induction s as [|c s IH]; [done|].
  change (String c (s +:+ "") = String c s). by rewrite IH.
Qed.

Lemma append_assoc s1 s2 s3 : (s1 +:+ s2) +:+ s3 = s1 +:+ s2 +:+ s3.
Proof.
  induction s1 as [|c s1 IH]; [done|].
  change (String c ((s1 +:+ s2) +:+ s3) = String c (s1 +:+ s2 +:+ s3)).
  by rewrite IH.
Qed.

(** With [RemovePassword] among the options, [Qt.toString] prints the
    scheme, the user name followed by ["@"] when there is one, and the
    rest; the password is not printed. *)
Lemma toString_RemovePassword
    (recode : list UrlFormattingOption → Qt.Part → string → string)
    (u : Qt.Url) (options : list UrlFormattingOption) :
  RemovePassword ∈ options →
  Qt.toString recode u options =
    Qt.scheme u +:+ "://" +:+
    match Qt.userName u with
    | Some name => recode options Qt.UserName name +:+ "@"
    | None => EmptyString
    end +:+
    recode options Qt.Rest (Qt.rest u).
Proof.
  intros Hin. unfold Qt.toString, Qt.appendAuthority, Qt.appendUserInfo.
  rewrite (bool_decide_eq_true_2 _ Hin).
  destruct (Qt.userName u) as [name|], (Qt.password u) as [word|]; simpl;
    rewrite ?append_nil_r, ?append_assoc; done.
Qed.

(** C8 as stated fails twice.  An invalid current URL makes
    [replace_variables] fail only when the list asks for the URL; a list
    without placeholder is returned as it is.  And on the page
    [https://a:b@example.com/p], rendered as [QUrl.toString] does, both
    placeholders are replaced by [https://a@example.com/p]: the password
    is removed, the user name is not, so the credentials are not
    stripped. *)
Lemma replace_variables_refuted :
  (current_url Demo.browser Demo.blank = inr "" ∧
   replace_variables Demo.browser Demo.blank ["down"; "{url"] =
     Ok ["down"; "{url"] ∧
   ∀ e, replace_variables Demo.browser Demo.blank ["down"; "{url"] ≠ Raise e) ∧
  (Demo.qt_page =
     inl (Qt.MkUrl "https" (Some "a") (Some "b") "example.com/p") ∧
   replace_variables Demo.qt_browser Demo.qt_page
       ["open"; "{url}"; "{url:pretty}"] =
     Ok ["open"; "https://a@example.com/p"; "https://a@example.com/p"] ∧
   replace_variables Demo.qt_browser Demo.qt_page
       ["open"; "{url}"; "{url:pretty}"] ≠
     Ok ["open"; "https://example.com/p"; "https://example.com/p"]).
Proof. repeat split; done. Qed.

(** C8, amended: when the current URL is valid, the result has the length
    of the argument list and, position by position, the URL rendered with
    [FullyEncoded | RemovePassword] for the token [{url}], the URL
    rendered with [RemovePassword] for the token [{url:pretty}], and the
    token itself otherwise.  Where the URL is rendered as [QUrl.toString]
    does, these two renderings are the scheme, the user name followed by
    ["@"] if the URL has one, and the rest of the URL, fully encoded for
    [{url}] and in display form for [{url:pretty}]: the password is
    removed, the user name stays.  When the current URL is invalid,
    [replace_variables] fails with a [CommandError] if the list contains
    one of the two placeholders, and returns the list unchanged if it
    contains neither. *)
Theorem replace_variables_spec {Host QUrl Mode Dict : Type}
    (B : Browser Host QUrl Mode Dict) (h : Host) (arglist : list string) :
  (∀ u, current_url B h = inl u →
     ∃ args, replace_variables B h arglist = Ok args ∧
       length args = length arglist ∧
       ∀ (i : nat) (arg : string), arglist !! i = Some arg →
         args !! i =
           Some (if bool_decide (arg = "{url}")
                 then toString B u [FullyEncoded; RemovePassword]
                 else if bool_decide (arg = "{url:pretty}")
                 then toString B u [RemovePassword]
                 else arg)) ∧
  (∀ (recode : list UrlFormattingOption → Qt.Part → string → string)
     (parts : QUrl → Qt.Url),
     (∀ u options,
        toString B u options = Qt.toString recode (parts u) options) →
     ∀ u, current_url B h = inl u →
     ∃ args, replace_variables B h arglist = Ok args ∧
       ∀ (i : nat) (arg : string), arglist !! i = Some arg →
         let shown options :=
           Qt.scheme (parts u) +:+ "://" +:+
           match Qt.userName (parts u) with
           | Some name => recode options Qt.UserName name +:+ "@"
           | None => EmptyString
           end +:+
           recode options Qt.Rest (Qt.rest (parts u)) in
         args !! i =
           Some (if bool_decide (arg = "{url}")
                 then shown [FullyEncoded; RemovePassword]
                 else if bool_decide (arg = "{url:pretty}")
                 then shown [RemovePassword]
                 else arg)) ∧
  (∀ reason, current_url B h = inr reason →
     "{url}" ∈ arglist ∨ "{url:pretty}" ∈ arglist →
     ∃ msg, replace_variables B h arglist = Raise (CommandError msg)) ∧
  (∀ reason, current_url B h = inr reason →
     "{url}" ∉ arglist → "{url:pretty}" ∉ arglist →
     replace_variables B h arglist = Ok arglist).
Proof.
  assert (∀ u, current_url B h = inl u →
     replace_variables B h arglist =
       Ok ((λ arg, if bool_decide (arg = "{url}")
                   then toString B u [FullyEncoded; RemovePassword]
                   else if bool_decide (arg = "{url:pretty}")
                   then toString B u [RemovePassword]
                   else arg) <$> arglist)) as Hvalid.
  { intros u Hu.
    unfold replace_variables, _current_url, Py.str_in. rewrite Hu. simpl.
    destruct (bool_decide ("{url}" ∈ arglist)) eqn:Hin1;
      destruct (bool_decide ("{url:pretty}" ∈ arglist)) eqn:Hin2; simpl;
      apply (replace_variables_loop_bound
               (toString B u [FullyEncoded; RemovePassword])
               (toString B u [RemovePassword]));
      try done; intros Hin;
      (by apply bool_decide_eq_false in Hin1) ||
      (by apply bool_decide_eq_false in Hin2). }
  split; [|split; [|split]].
  - intros u Hu. eexists. split; [exact (Hvalid u Hu)|]. split.
    + by rewrite length_fmap.
    + intros i arg Hi. by rewrite list_lookup_fmap, Hi.
  - intros recode parts Hqt u Hu. eexists. split; [exact (Hvalid u Hu)|].
    intros i arg Hi shown. rewrite list_lookup_fmap, Hi. simpl.
    rewrite !Hqt.
    rewrite !toString_RemovePassword;
      [done|apply list_elem_of_here
           |apply list_elem_of_further, list_elem_of_here].
  - intros reason Hr Hin. unfold replace_variables, _current_url.
    rewrite Hr. unfold Py.str_in.
    destruct (decide ("{url}" ∈ arglist)) as [Hu|Hu].
    + rewrite (bool_decide_eq_true_2 _ Hu). simpl. by eexists.
    + rewrite (bool_decide_eq_false_2 _ Hu). simpl.
      destruct Hin as [Hin|Hin]; [done|].
      rewrite (bool_decide_eq_true_2 _ Hin). simpl. by eexists.
  - intros reason Hr Hu Hp. unfold replace_variables, Py.str_in.
    rewrite (bool_decide_eq_false_2 _ Hu), (bool_decide_eq_false_2 _ Hp).
    simpl. by apply replace_variables_loop_plain.
Qed.

Lemma replace_variables_spec_witness :
  (∃ args,
     replace_variables Demo.browser Demo.page ["{url}"; "x"; "{url:pretty}"]
       = Ok args ∧
     length args = 3%nat ∧
     args !! 0%nat = Some "https://a@example.com/p%20q" ∧
     args !! 1%nat = Some "x" ∧
     args !! 2%nat = Some "https://a@example.com/p q") ∧
  (∃ args,
     replace_variables Demo.qt_browser Demo.qt_page ["open"; "{url}"]
       = Ok args ∧
     args !! 1%nat = Some "https://a@example.com/p") ∧
  (∃ msg, replace_variables Demo.browser Demo.blank ["-t"; "{url}"]
            = Raise (CommandError msg)).
Proof.
  pose proof (replace_variables_spec Demo.browser Demo.page
                ["{url}"; "x"; "{url:pretty}"]) as (Hok & _ & _ & _).
  pose proof (replace_variables_spec Demo.qt_browser Demo.qt_page
                ["open"; "{url}"]) as (_ & Hqt & _ & _).
  pose proof (replace_variables_spec Demo.browser Demo.blank
                ["-t"; "{url}"]) as (_ & _ & Hbad & _).
  split; [|split].
  - destruct (Hok _ eq_refl) as (args & Hargs & Hlen & Hi).
    exists args. split; [exact Hargs|]. split; [exact Hlen|].
    split; [exact (Hi 0%nat _ eq_refl)|].
    split; [exact (Hi 1%nat _ eq_refl)|exact (Hi 2%nat _ eq_refl)].
  - destruct (Hqt (λ _ _, id) id (λ _ _, eq_refl) _ eq_refl)
      as (args & Hargs & Hi).
    exists args. split; [exact Hargs|exact (Hi 1%nat _ eq_refl)].
  - apply (Hbad "" eq_refl). left. apply list_elem_of_further, list_elem_of_here.
Defined.

(** ** Dispatch *)

Section DispatchFacts.

Context {Host QUrl Mode : Type} `{Countable Mode}.
Context (E : Env) (B : Browser Host QUrl Mode (gmap Mode (string * option Z)))
  (self : CommandRunner).

Lemma appends_pure {A : Type} (f : State → result A) :
  appends (λ st : State (Host := Host) (Mode := Mode), (st, f st)).
Proof. intros st. exists []. simpl. by rewrite app_nil_r. Qed.

Lemma appends_bind {A C : Type} (m : M (Host := Host) (Mode := Mode) A)
    (k : A → M C) :
  appends m → (∀ a, appends (k a)) → appends (bind m k).
Proof.
  intros Hm Hk st. unfold bind. destruct (Hm st) as [more Hmore].
  destruct (m st) as [st' [a|e]]; simpl in *; [|by exists more].
  destruct (Hk a st') as [more' Hmore']. exists (more ++ more').
  by rewrite Hmore', Hmore, app_assoc.
Qed.

Lemma appends_invoke_cmd result args count :
  appends (invoke_cmd B self result args count).
Proof.
  unfold invoke_cmd. destruct (cmd result) as [c|]; [|apply appends_pure].
  intros st. unfold invoke. destruct (cmd_run _ _ _ _ _ _ _) as [[h d] r].
  by eexists.
Qed.

Lemma appends_run_result text count result :
  appends (run_result B self text count result).
Proof.
  unfold run_result.
  apply appends_bind; [apply appends_pure|]. intros arglist.
  apply appends_bind; [apply appends_pure|]. intros args.
  apply appends_bind.
  { destruct count, (Runners.count result);
      apply appends_invoke_cmd || apply appends_pure. }
  intros _. apply appends_bind; [apply appends_pure|]. intros cmdline0.
  destruct (negb _); [|apply appends_pure].
  apply appends_bind; [apply appends_pure|]. intros stripped.
  apply (appends_pure (λ _, Ok ())).
Qed.

Lemma appends_run_results text count results :
  appends (run_results B self text count results).
Proof.
  induction results as [|result results IH]; simpl.
  - apply (appends_pure (λ _, Ok ())).
  - apply appends_bind; [apply appends_run_result|done].
Qed.

(** What the dispatch of one result does about the count, once the
    variables are substituted. *)
Lemma run_result_count text caller_count result st c arglist args :
  cmd result = Some c →
  Runners.args result = Some arglist →
  replace_variables B (host st) arglist = Ok args →
  match caller_count, count result with
  | Some _, Some _ =>
      run_result B self text caller_count result st =
        (st, Raise (CommandMetaError "Got count via command and prefix!"))
  | Some n, None | None, Some n =>
      calls (run_result B self text caller_count result st).1 =
        calls st ++ [MkCall c (_win_id self) args (Some n)]
  | None, None =>
      calls (run_result B self text caller_count result st).1 =
        calls st ++ [MkCall c (_win_id self) args None]
  end.
Proof.
  intros Hc Hargs Hrepl.
  unfold run_result, bind, lift. rewrite Hargs, Hrepl.
  destruct caller_count as [n|], (count result) as [m|]; simpl; [done|..];
    unfold invoke_cmd; rewrite Hc; unfold invoke;
    destruct (cmd_run _ _ _ _ _ _ _) as [[h d] [[]|e]]; simpl; try done;
    destruct (cmdline result !! 0%nat); simpl; try done;
    destruct (negb _); simpl; try done;
    destruct (_parse_count text); simpl; done.
Qed.

(** The dispatch of one result that went through: the command was
    invoked once, on the window and the dictionary as they were, with the
    substituted arguments and the count in use; after it returned, the
    entry of the mode the window is then in was set to the text from
    [_parse_count] and that count, unless the command line starts with one
    of the three names that are not recorded, in which case the dictionary
    is as the command left it. *)
Lemma run_result_last_command text caller_count result st st' cmdline0 :
  run_result B self text caller_count result st = (st', Ok ()) →
  cmdline result !! 0%nat = Some cmdline0 →
  ∃ c arglist args d,
    cmd result = Some c ∧ Runners.args result = Some arglist ∧
    replace_variables B (host st) arglist = Ok args ∧
    cmd_run B c (_win_id self) args
      (match caller_count with Some n => Some n | None => count result end)
      (host st) (last_command st) = (host st', d, Ok ()) ∧
    if Py.str_in cmdline0 unrecorded then last_command st' = d
    else ∃ prefix rest,
      _parse_count text = Ok (prefix, rest) ∧
      last_command st' =
        <[mode B (host st') :=
            (rest, match caller_count with
                   | Some n => Some n
                   | None => count result
                   end)]> d.
Proof.
  intros Hrun Hcmdline. revert Hrun.
  unfold run_result, bind, lift. rewrite Hcmdline.
  destruct (Runners.args result) as [arglist|] eqn:Hargs; [|done].
  destruct (replace_variables B (host st) arglist) as [args|e] eqn:Hrepl;
    [|done].
  assert (Hinv : ∀ n stI,
    invoke_cmd B self result args n st = (stI, Ok ()) →
    ∃ c, cmd result = Some c ∧
      cmd_run B c (_win_id self) args n (host st) (last_command st) =
        (host stI, last_command stI, Ok ())).
  { intros n stI. unfold invoke_cmd. destruct (cmd result) as [c|]; [|done].
    unfold invoke.
    destruct (cmd_run B c (_win_id self) args n (host st) (last_command st))
      as [[h d] r] eqn:Hcmd.
    intros [= <- ->]. by exists c. }
  destruct caller_count as [n|], (count result) as [m|]; [done|..];
    (destruct (invoke_cmd B self result args _ st) as [stI [[]|e]] eqn:Hstep;
       [|done]);
    apply Hinv in Hstep as (c & Hc & Hcmd);
    (destruct (Py.str_in cmdline0 unrecorded); simpl;
       [unfold ret; intros [= <-]; by exists c, arglist, args, (last_command stI)|]);
    (destruct (_parse_count text) as [[prefix rest]|e]; [|done]);
    unfold set_last_command; intros [= <-]; simpl;
    exists c, arglist, args, (last_command stI);
    (repeat split; [done..|]); by exists prefix, rest.
Qed.

End DispatchFacts.

Section RunFacts.

Context {Host QUrl Mode : Type} `{Countable Mode}.
Context (E : Env) (B : Browser Host QUrl Mode (gmap Mode (string * option Z)))
  (self : CommandRunner).

(** Calls made by the first step stay in front of those made later. *)
Lemma bind_calls {A C : Type} (m : M (Host := Host) (Mode := Mode) A)
    (k : A → M C) st made :
  calls (m st).1 = calls st ++ made →
  (∀ a, appends (k a)) →
  ∃ more, calls (bind m k st).1 = calls st ++ made ++ more.
Proof.
  intros Hm Hk. unfold bind.
  destruct (m st) as [st' [a|e]]; simpl in *.
  - destruct (Hk a st') as [more Hmore]. exists more.
    by rewrite Hmore, Hm, app_assoc.
  - exists []. by rewrite app_nil_r.
Qed.

(** [run] on a text whose first parsed segment is [result]. *)
Lemma run_first_calls text caller_count st result rest made :
  yielded (parse_all E self text true false false) = result :: rest →
  calls (run_result B self text caller_count result st).1 = calls st ++ made →
  ∃ more, calls (run E B self text caller_count st).1 = calls st ++ made ++ more.
Proof.
  intros Hy Hfirst. unfold run. rewrite Hy. simpl.
  destruct (bind_calls (run_result B self text caller_count result)
              (λ _, run_results B self text caller_count rest) st made Hfirst)
    as [more1 Hmore1]; [intros _; apply appends_run_results|].
  destruct (bind_calls _
              (λ _ : (), match raised (parse_all E self text true false false) with
                         | Some e => raise e
                         | None => ret ()
                         end) st _ Hmore1) as [more2 Hmore2].
  { intros _. destruct (raised _); apply appends_pure. }
  exists (more1 ++ more2). rewrite Hmore2. by rewrite !app_assoc.
Qed.

(** The segments of a chain are dispatched one after the other. *)
Lemma run_results_app text count rs1 rs2 st :
  run_results B self text count (rs1 ++ rs2) st =
  bind (run_results B self text count rs1)
       (λ _, run_results B self text count rs2) st.
Proof.
  revert st. induction rs1 as [|r rs1 IH]; intros st; simpl.
  - unfold bind, ret. done.
  - unfold bind in *.
    destruct (run_result B self text count r st) as [st1 [[]|e]]; [|done].
    apply IH.
Qed.

(** [run] once the segments [before] are dispatched and left [st1]: it
    goes on with the next segment from there. *)
Lemma run_from text count st st1 before result after :
  yielded (parse_all E self text true false false) = before ++ result :: after →
  run_results B self text count before st = (st1, Ok ()) →
  run E B self text count st =
    bind (bind (run_result B self text count result)
               (λ _, run_results B self text count after))
         (λ _, match raised (parse_all E self text true false false) with
               | Some e => raise e
               | None => ret ()
               end) st1.
Proof.
  intros Hy Hbefore. unfold run. rewrite Hy.
  unfold bind at 1. rewrite run_results_app. unfold bind at 1.
  rewrite Hbefore. simpl. by unfold bind.
Qed.

Lemma run_segment_calls text count st st1 before result after made :
  yielded (parse_all E self text true false false) = before ++ result :: after →
  run_results B self text count before st = (st1, Ok ()) →
  calls (run_result B self text count result st1).1 = calls st1 ++ made →
  ∃ more, calls (run E B self text count st).1 = calls st1 ++ made ++ more.
Proof.
  intros Hy Hbefore Hseg. rewrite (run_from _ _ _ _ _ _ _ Hy Hbefore).
  destruct (bind_calls (run_result B self text count result)
              (λ _, run_results B self text count after) st1 made Hseg)
    as [more1 Hmore1]; [intros _; apply appends_run_results|].
  destruct (bind_calls _
              (λ _ : (), match raised (parse_all E self text true false false) with
                         | Some e => raise e
                         | None => ret ()
                         end) st1 _ Hmore1) as [more2 Hmore2].
  { intros _. destruct (raised _); apply appends_pure. }
  exists (more1 ++ more2). rewrite Hmore2. by rewrite !app_assoc.
Qed.

End RunFacts.

(** C5 as stated fails: the variables are substituted before the counts
    are compared, so for a segment with a count prefix and the
    placeholder [{url}], run with a count while the current URL is
    invalid, [run] fails with the [CommandError] of the substitution and
    not with [CommandMetaError]. *)
Lemma run_substitution_precedes_count_check :
  parse_all Demo.env Demo.runner "2:open {url}" true false false =
    MkGen [MkParseResult (Some Demo.open) (Some ["{url}"]) ["open"; "{url}"]
             (Some 2)] None ∧
  run Demo.env Demo.browser Demo.runner "2:open {url}" (Some 5)
      (Demo.start Demo.blank) =
    (Demo.start Demo.blank, Raise (CommandError "Current URL is invalid!")) ∧
  ∀ msg, (run Demo.env Demo.browser Demo.runner "2:open {url}" (Some 5)
            (Demo.start Demo.blank)).2 ≠ Raise (CommandMetaError msg).
Proof. repeat split; done. Qed.

(** C5, amended: take any segment that [parse_all] yields for the text
    of [run], the segments before it dispatched without error and leaving
    the state [st1], and its variables substituted without error (a
    failure of the substitution comes first).  When the caller's count
    and the parsed count of the segment are both present, [run] fails
    with [CommandMetaError] and leaves [st1] as it is, the command of the
    segment not invoked; when exactly one is present, the next call that
    [run] makes invokes the command with that count; when neither is, it
    invokes the command without count. *)
Theorem run_count_resolution {Host QUrl Mode : Type} `{Countable Mode}
    (E : Env) (B : Browser Host QUrl Mode (gmap Mode (string * option Z)))
    (self : CommandRunner)
    (text : string) (caller_count : option Z)
    (st st1 : State (Host := Host) (Mode := Mode))
    (before after : list ParseResult) (result : ParseResult)
    (c : Command) (arglist args : list string) :
  yielded (parse_all E self text true false false) = before ++ result :: after →
  run_results B self text caller_count before st = (st1, Ok ()) →
  cmd result = Some c →
  Runners.args result = Some arglist →
  replace_variables B (host st1) arglist = Ok args →
  match caller_count, count result with
  | Some _, Some _ =>
      run E B self text caller_count st =
        (st1, Raise (CommandMetaError "Got count via command and prefix!"))
  | Some n, None | None, Some n =>
      ∃ more, calls (run E B self text caller_count st).1 =
        calls st1 ++ MkCall c (_win_id self) args (Some n) :: more
  | None, None =>
      ∃ more, calls (run E B self text caller_count st).1 =
        calls st1 ++ MkCall c (_win_id self) args None :: more
  end.
Proof.
  intros Hy Hbefore Hc Hargs Hrepl.
  pose proof (run_result_count B self text caller_count result st1 c arglist
                args Hc Hargs Hrepl) as Hbody.
  destruct caller_count as [n|], (count result) as [m|].
  - rewrite (run_from E B self _ _ _ _ _ _ _ Hy Hbefore).
    unfold bind at 1 2. by rewrite Hbody.
  - by apply (run_segment_calls E B self text (Some n) st st1 before result
                after [_] Hy Hbefore).
  - by apply (run_segment_calls E B self text None st st1 before result
                after [_] Hy Hbefore).
  - by apply (run_segment_calls E B self text None st st1 before result
                after [_] Hy Hbefore).
Qed.

Lemma run_count_resolution_witness :
  run Demo.env Demo.browser Demo.runner "open x;;3:scroll down" (Some 4)
      (Demo.start Demo.page) =
    (MkState Demo.page {["normal" := ("scroll down", Some 4)]}
       [MkCall Demo.open 0 ["x"] (Some 4)],
     Raise (CommandMetaError "Got count via command and prefix!")) ∧
  (∃ more,
     calls (run Demo.env Demo.browser Demo.runner "open x;;3:scroll down" None
              (Demo.start Demo.page)).1 =
       [MkCall Demo.open 0 ["x"] None] ++
       MkCall Demo.scroll 0 ["down"] (Some 3) :: more) ∧
  run Demo.env Demo.browser Demo.runner "2:scroll down" (Some 5)
      (Demo.start Demo.page) =
    (Demo.start Demo.page,
     Raise (CommandMetaError "Got count via command and prefix!")).
Proof.
  split; [|split].
  - apply (run_count_resolution Demo.env Demo.browser Demo.runner
             "open x;;3:scroll down" (Some 4) (Demo.start Demo.page)
             (MkState Demo.page {["normal" := ("scroll down", Some 4)]}
                [MkCall Demo.open 0 ["x"] (Some 4)])
             [MkParseResult (Some Demo.open) (Some ["x"]) ["open"; "x"] None]
             []
             (MkParseResult (Some Demo.scroll) (Some ["down"])
                ["scroll"; "down"] (Some 3))
             Demo.scroll ["down"] ["down"]); reflexivity.
  - apply (run_count_resolution Demo.env Demo.browser Demo.runner
             "open x;;3:scroll down" None (Demo.start Demo.page)
             (MkState Demo.page {["normal" := ("scroll down", None)]}
                [MkCall Demo.open 0 ["x"] None])
             [MkParseResult (Some Demo.open) (Some ["x"]) ["open"; "x"] None]
             []
             (MkParseResult (Some Demo.scroll) (Some ["down"])
                ["scroll"; "down"] (Some 3))
             Demo.scroll ["down"] ["down"]); reflexivity.
  - apply (run_count_resolution Demo.env Demo.browser Demo.runner
             "2:scroll down" (Some 5) (Demo.start Demo.page)
             (Demo.start Demo.page) [] []
             (MkParseResult (Some Demo.scroll) (Some ["down"])
                ["scroll"; "down"] (Some 2))
             Demo.scroll ["down"] ["down"]); reflexivity.
Defined.

(** ** The record of the last command *)

(** C3 (fails on the code): the text recorded is to be the input with
    only its count prefix cut off.  [run] records what [_parse_count]
    leaves of the whole text, which is what follows the first colon
    anywhere in it: for [open http://example.com] the entry of the mode
    is [//example.com], the command name and the scheme gone. *)
Theorem run_records_text_after_first_colon :
  _parse_count "open http://example.com" = Ok (None, "//example.com") ∧
  (run Demo.env Demo.browser Demo.runner "open http://example.com" None
     (Demo.start Demo.page)).2 = Ok () ∧
  last_command
    (run Demo.env Demo.browser Demo.runner "open http://example.com" None
       (Demo.start Demo.page)).1 !! "normal" =
    Some ("//example.com", None).
Proof. repeat split; reflexivity. Qed.

(** * Further properties of the runner *)

(** ** More facts about the string methods *)

Section MorePyFacts.

Lemma lstrip_idemp s : Py.lstrip (Py.lstrip s) = Py.lstrip s.
Proof.
  induction s as [|c s IH]; simpl; [done|].
  destruct (Py.isspace c) eqn:Hc; [done|]. simpl. by rewrite Hc.
Qed.

(** No word at all means nothing but white space. *)
Lemma split_max_nil n s : Py.split_max n s = [] → Py.lstrip s = "".
Proof.
  intros Hs. destruct (Py.lstrip s) as [|c s1] eqn:Hl; [done|].
  exfalso. destruct n; simpl in Hs; rewrite Hl in Hs; [done|].
  revert Hs. destruct (Py.isspace c); [done|]. by destruct (Py.break_space s1).
Qed.

Lemma strip_lstrip s : Py.lstrip (Py.strip s) = Py.strip s.
Proof. apply lstrip_idemp. Qed.

(** [partition] takes the string apart without losing anything. *)
Lemma partition_join sep s a b d :
  Py.partition sep s = (a, b, d) → s = a +:+ b +:+ d.
Proof.
  revert a b d. induction s as [|c s IH]; simpl; intros a b d.
  - by intros [= <- <- <-].
  - destruct (Py.char_eqb c sep) eqn:Hc.
    + apply char_eqb_true in Hc as ->. by intros [= <- <- <-].
    + destruct (Py.partition sep s) as [[a' b'] d'].
      intros [= <- <- <-]. simpl. by rewrite (IH a' b' d' eq_refl) at 1.
Qed.

(** A prefix without the separator stays in front of the first part. *)
Lemma partition_app sep pre s a b d :
  Py.contains sep pre = false →
  Py.partition sep s = (a, b, d) →
  Py.partition sep (pre +:+ s) = (pre +:+ a, b, d).
Proof.
  intros Hp Hs. induction pre as [|c pre IH]; simpl in *; [done|].
  destruct (Py.char_eqb c sep); simpl in *; [done|]. by rewrite (IH Hp).
Qed.

End MorePyFacts.

(** ** What the parser raises *)

Section ParserErrors.

Context (E : Env) (self : CommandRunner).

(** [_get_alias] raises exactly on the texts that strip to nothing, and
    then [IndexError]. *)
Lemma _get_alias_raise text e :
  _get_alias E text = Raise e → e = IndexError ∧ Py.strip text = "".
Proof.
  unfold _get_alias.
  destruct (Py.split_max 1 (Py.strip text)) as [|parts0 parts] eqn:Hs; simpl.
  - intros [= <-]. split; [done|].
    apply split_max_nil in Hs. by rewrite strip_lstrip in Hs.
  - by destruct (aliases E !! parts0).
Qed.

(** Without aliases the body of [parse] raises [NoSuchCommandError] or
    nothing. *)
Lemma parse_body_raise_no_aliases reparse text fallback keep e :
  parse_body E self reparse text false fallback keep = Raise e →
  ∃ msg, e = NoSuchCommandError msg ∧ fallback = false.
Proof.
  unfold parse_body.
  destruct (Py.partition " " text) as [[cmdstr0 sep] argstr].
  destruct (_parse_count_total cmdstr0) as [count [cmdstr ->]]. simpl.
  destruct fallback; simpl; rewrite ?andb_false_r, ?andb_true_r.
  - by destruct (cmd_dict E !! _).
  - destruct (negb (Py.truth cmdstr)); [intros [= <-]; by eexists|].
    destruct (cmd_dict E !! _); [done|]. intros [= <-]. by eexists.
Qed.

(** With aliases it may also raise what [_get_alias] raises. *)
Lemma parse_body_raise reparse text aliases fallback keep e :
  (∀ t f k e', reparse t f k = Raise e' →
     ∃ msg, e' = NoSuchCommandError msg ∧ f = false) →
  parse_body E self reparse text aliases fallback keep = Raise e →
  (e = IndexError ∧ aliases = true ∧ Py.strip text = "") ∨
  (∃ msg, e = NoSuchCommandError msg ∧ fallback = false).
Proof.
  intros Hre. unfold parse_body.
  destruct (Py.partition " " text) as [[cmdstr0 sep] argstr].
  destruct (_parse_count_total cmdstr0) as [count [cmdstr ->]]. simpl.
  destruct (negb (Py.truth cmdstr) && negb fallback) eqn:Hcheck.
  { intros [= <-]. right. eexists. split; [done|].
    apply andb_true_iff in Hcheck as [_ Hf]. by destruct fallback. }
  destruct aliases; simpl.
  - destruct (_get_alias E text) as [[new_cmd|]|e'] eqn:Ha; simpl.
    + intros Hr. right. by apply (Hre _ _ _ _ Hr).
    + destruct (cmd_dict E !! _); [done|].
      destruct fallback; simpl; [done|]. intros [= <-]. right. by eexists.
    + intros [= <-]. left. apply _get_alias_raise in Ha as [-> Hs]. done.
  - destruct (cmd_dict E !! _); [done|].
    destruct fallback; simpl; [done|]. intros [= <-]. right. by eexists.
Qed.

(** What [parse] raises. *)
Lemma parse_raise_cases text aliases fallback keep e :
  parse E self text aliases fallback keep = Raise e →
  (e = IndexError ∧ aliases = true ∧ Py.strip text = "") ∨
  (∃ msg, e = NoSuchCommandError msg ∧ fallback = false).
Proof.
  apply parse_body_raise. intros t f k e' Hr.
  by apply parse_body_raise_no_aliases in Hr.
Qed.

End ParserErrors.

(** X1: [parse] raises [IndexError] only with [aliases] on and on a text
    that strips to nothing, and otherwise raises nothing but
    [NoSuchCommandError], and that only with [fallback] off. *)
Theorem parse_raises (E : Env) (self : CommandRunner)
    (text : string) (aliases fallback keep : bool) (e : exn) :
  parse E self text aliases fallback keep = Raise e →
  (e = IndexError ∧ aliases = true ∧ Py.strip text = "") ∨
  (∃ msg, e = NoSuchCommandError msg ∧ fallback = false).
Proof. apply parse_raise_cases. Qed.

Lemma parse_raises_witness :
  (IndexError = IndexError ∧ true = true ∧ Py.strip (String "009" "") = "") ∨
  (∃ msg, IndexError = NoSuchCommandError msg ∧ false = false).
Proof.
  apply (parse_raises Demo.env Demo.runner (String "009" "") true false false).
  reflexivity.
Defined.

(** X2: without aliases and with [fallback] on, [parse] returns a result
    for every text. *)
Theorem parse_fallback_total (E : Env) (self : CommandRunner)
    (text : string) (keep : bool) :
  ∃ r, parse E self text false true keep = Ok r.
Proof.
  destruct (parse E self text false true keep) as [r|e] eqn:Hp; [by exists r|].
  apply parse_raise_cases in Hp as [(_ & Hal & _)|(msg & _ & Hf)]; done.
Qed.

(** X3: [_get_alias] raises exactly on the texts that strip to nothing,
    and what it raises is [IndexError]. *)
Theorem get_alias_raises (E : Env) (text : string) (e : exn) :
  _get_alias E text = Raise e ↔ e = IndexError ∧ Py.strip text = "".
Proof.
  split; [apply _get_alias_raise|].
  intros [-> Hs]. by apply _get_alias_blank.
Qed.

(** ** The shape of a resolved result *)

Section ResolvedShape.

Context (E : Env) (self : CommandRunner).

(** The arguments of a resolved result and its command line. *)
Lemma parse_body_shape reparse text aliases fallback keep r c :
  (∀ t f r', reparse t f keep = Ok r' → cmd r' = Some c →
     ∃ nm a, cmd_dict E !! nm = Some c ∧ args r' = Some a ∧
       cmdline r' !! 0%nat = Some nm ∧ (keep = false → cmdline r' = nm :: a)) →
  parse_body E self reparse text aliases fallback keep = Ok r →
  cmd r = Some c →
  ∃ nm a, cmd_dict E !! nm = Some c ∧ args r = Some a ∧
    cmdline r !! 0%nat = Some nm ∧ (keep = false → cmdline r = nm :: a).
Proof.
  intros Hre. unfold parse_body.
  destruct (Py.partition " " text) as [[cmdstr0 sep] argstr].
  destruct (_parse_count cmdstr0) as [[count cmdstr]|e]; simpl; [|done].
  destruct (negb (Py.truth cmdstr) && negb fallback); [done|].
  destruct (if aliases then _get_alias E text else Ok None)
    as [[new_cmd|]|e]; simpl; [by apply Hre| |done].
  destruct (cmd_dict E !! _) as [c'|] eqn:Hc.
  - intros [= <-] [= <-]. eexists _, _. split; [exact Hc|]. simpl.
    split; [done|]. split; [apply cmdline_head|]. by intros ->.
  - destruct (negb fallback); [done|]. by intros [= <-].
Qed.

Lemma parse_shape text aliases fallback keep r c :
  parse E self text aliases fallback keep = Ok r →
  cmd r = Some c →
  ∃ nm a, cmd_dict E !! nm = Some c ∧ args r = Some a ∧
    cmdline r !! 0%nat = Some nm ∧ (keep = false → cmdline r = nm :: a).
Proof.
  apply parse_body_shape. intros t f r'.
  apply parse_body_shape. done.
Qed.

(** The arguments that [_split_args] returns come from one of the
    splitters applied to the whole argument string. *)
Lemma _split_args_loop_source cmd n argstr keep split_args i fac todo :
  _split_args_loop E cmd n argstr keep split_args i fac todo = split_args ∨
  ∃ m, Z.of_nat i + n ≤ m ≤ Z.of_nat i + n + 2 * Z.of_nat (length todo) +
                              Z.of_nat fac ∧
       _split_args_loop E cmd n argstr keep split_args i fac todo =
         split_simple_split E argstr keep (Some m).
Proof.
  revert i fac. induction todo as [|arg todo IH]; intros i fac; simpl; [by left|].
  destruct (Py.startswith "-" (Py.strip arg)).
  - destruct (Py.str_in _ _).
    + destruct (IH (S i) (S fac)) as [->|(m & Hm & ->)]; [by left|].
      right. exists m. split; [lia|done].
    + destruct (IH (S i) fac) as [->|(m & Hm & ->)]; [by left|].
      right. exists m. split; [lia|done].
  - right. eexists. split; [|done]. lia.
Qed.

End ResolvedShape.

(** X4: a result of [parse] that has a command has arguments, and its
    command line starts with a name under which the registry holds that
    command; without [keep] the command line is that name followed by the
    arguments. *)
Theorem parse_resolved_shape (E : Env) (self : CommandRunner)
    (text : string) (aliases fallback keep : bool)
    (r : ParseResult) (c : Command) :
  parse E self text aliases fallback keep = Ok r →
  cmd r = Some c →
  ∃ nm a, cmd_dict E !! nm = Some c ∧ args r = Some a ∧
    cmdline r !! 0%nat = Some nm ∧ (keep = false → cmdline r = nm :: a).
Proof. apply parse_shape. Qed.

Lemma parse_resolved_shape_witness :
  ∃ nm a, cmd_dict Demo.env !! nm = Some Demo.open ∧
    args (MkParseResult (Some Demo.open) (Some ["x  y"]) ["open"; "x  y"] None)
      = Some a ∧
    cmdline (MkParseResult (Some Demo.open) (Some ["x  y"]) ["open"; "x  y"] None)
      !! 0%nat = Some nm ∧
    (false = false →
     cmdline (MkParseResult (Some Demo.open) (Some ["x  y"]) ["open"; "x  y"] None)
       = nm :: a).
Proof.
  apply (parse_resolved_shape Demo.env Demo.runner "o x  y" true false false);
    reflexivity.
Defined.

(** A list with an element that [p] rejects splits at the first of
    them. *)
Lemma first_rejected {A : Type} (p : A → bool) (l : list A) :
  ¬ Forall (λ a, p a = true) l →
  ∃ flags tok rest,
    l = flags ++ tok :: rest ∧ Forall (λ a, p a = true) flags ∧ p tok = false.
Proof.
  induction l as [|a l IH]; intros Hnot; [by destruct Hnot|].
  destruct (p a) eqn:Hp.
  - destruct IH as (flags & tok & rest & -> & Hflags & Htok).
    { intros Hl. apply Hnot. by constructor. }
    exists (a :: flags), tok, rest. split; [done|]. split; [by constructor|done].
  - exists [], a, l. split; [done|]. split; [constructor|done].
Qed.

(** X5: for a command that bounds its splits and a non-empty argument
    string, the arguments are the first, unbounded split when every token
    of it is a flag; when they are not, the first split has a first token
    that is not a flag, and the arguments are the argument string split
    again, bounded by the number of flags before that token plus the
    command's [maxsplit] plus the number of those flags that take an
    argument. *)
Theorem split_args_source (E : Env) (cmd : Command) (n : Z)
    (argstr : string) (keep : bool) :
  argstr ≠ "" →
  maxsplit cmd = Some n →
  (Forall (λ a, Py.startswith "-" (Py.strip a) = true)
     (split_simple_split E argstr keep None) →
   _split_args E cmd argstr keep = split_simple_split E argstr keep None) ∧
  (¬ Forall (λ a, Py.startswith "-" (Py.strip a) = true)
       (split_simple_split E argstr keep None) →
   ∃ flags tok rest,
     split_simple_split E argstr keep None = flags ++ tok :: rest ∧
     Forall (λ a, Py.startswith "-" (Py.strip a) = true) flags ∧
     Py.startswith "-" (Py.strip tok) = false ∧
     _split_args E cmd argstr keep =
       split_simple_split E argstr keep
         (Some (Z.of_nat (length flags) + n +
                Z.of_nat (length (List.filter
                            (λ a, Py.str_in (Py.strip a) (flags_with_args cmd))
                            flags))))).
Proof.
  intros Hne Hmax. unfold _split_args.
  destruct argstr as [|ch argstr]; [done|]. rewrite Hmax.
  split.
  - apply _split_args_loop_flags.
  - intros Hnot.
    destruct (first_rejected (λ a, Py.startswith "-" (Py.strip a)) _ Hnot)
      as (flags & tok & rest & Hsplit & Hflags & Htok).
    exists flags, tok, rest. split; [done|]. split; [done|]. split; [done|].
    rewrite Hsplit.
    by rewrite (_split_args_loop_first E cmd n _ keep _ flags tok rest 0 0).
Qed.

Lemma split_args_source_witness :
  _split_args Demo.env Demo.foo "-a --b" false = ["-a"; "--b"] ∧
  ∃ flags tok rest,
    ["-v"; "x"; "y"; "z"] = flags ++ tok :: rest ∧
    Forall (λ a, Py.startswith "-" (Py.strip a) = true) flags ∧
    Py.startswith "-" (Py.strip tok) = false ∧
    _split_args Demo.env Demo.foo "-v x y z" false =
      Split.simple_split "-v x y z" false
        (Some (Z.of_nat (length flags) + 1 +
               Z.of_nat (length (List.filter
                           (λ a, Py.str_in (Py.strip a)
                                   (flags_with_args Demo.foo))
                           flags)))).
Proof.
  split.
  - apply (split_args_source Demo.env Demo.foo 1 "-a --b" false);
      [done | reflexivity |].
    repeat constructor.
  - apply (split_args_source Demo.env Demo.foo 1 "-v x y z" false);
      [done | reflexivity |].
    intros Hall. apply Forall_cons_1 in Hall as [_ Hall].
    apply Forall_cons_1 in Hall as [Hx _]. discriminate Hx.
Defined.

(** ** Partial matching *)

Section Completion.

Context (E : Env).

(** The registered names that start with [cmdstr]. *)
Lemma completion_matches_elem cmdstr k :
  In k (List.filter (Py.find_is_0 cmdstr) (fst <$> map_to_list (cmd_dict E))) ↔
  is_Some (cmd_dict E !! k) ∧ String.prefix cmdstr k = true.
Proof.
  rewrite filter_In, <- list_elem_of_In, list_elem_of_fmap. split.
  - intros [[[k' c] [-> Hkc%elem_of_map_to_list]] Hp]. simpl. eauto.
  - intros [[c Hc] Hp]. split; [|done]. exists (k, c).
    split; [done|]. by apply elem_of_map_to_list.
Qed.

Lemma completion_matches_NoDup cmdstr :
  NoDup (List.filter (Py.find_is_0 cmdstr) (fst <$> map_to_list (cmd_dict E))).
Proof.
  apply NoDup_ListNoDup, List.NoDup_filter, NoDup_ListNoDup.
  apply NoDup_fst_map_to_list.
Qed.

(** What [_completion_match] returns when it changes its argument. *)
Lemma _completion_match_cases cmdstr :
  _completion_match E cmdstr = cmdstr ∨
  (is_Some (cmd_dict E !! _completion_match E cmdstr) ∧
   String.prefix cmdstr (_completion_match E cmdstr) = true ∧
   ∀ k, is_Some (cmd_dict E !! k) → String.prefix cmdstr k = true →
        k = _completion_match E cmdstr).
Proof.
  unfold _completion_match.
  pose proof (completion_matches_elem cmdstr) as Hel.
  destruct (List.filter _ _) as [|m [|m' l]]; [by left| |by left].
  right. destruct (proj1 (Hel m) (or_introl eq_refl)) as [Hm Hp].
  split; [done|]. split; [done|]. intros k Hk Hkp.
  destruct (proj2 (Hel k) (conj Hk Hkp)) as [->|[]]. done.
Qed.

End Completion.

(** X6: [_completion_match] either returns its argument or the one
    registered name that starts with it: the result is then registered,
    has the argument as a prefix, and no other registered name has. *)
Theorem completion_match_sound (E : Env) (cmdstr : string) :
  _completion_match E cmdstr = cmdstr ∨
  (is_Some (cmd_dict E !! _completion_match E cmdstr) ∧
   String.prefix cmdstr (_completion_match E cmdstr) = true ∧
   ∀ k, is_Some (cmd_dict E !! k) → String.prefix cmdstr k = true →
        k = _completion_match E cmdstr).
Proof. apply _completion_match_cases. Qed.

(** X7: when exactly one registered name starts with [cmdstr],
    [_completion_match] returns that name. *)
Theorem completion_match_unique (E : Env) (cmdstr m : string) :
  is_Some (cmd_dict E !! m) →
  String.prefix cmdstr m = true →
  (∀ k, is_Some (cmd_dict E !! k) → String.prefix cmdstr k = true → k = m) →
  _completion_match E cmdstr = m.
Proof.
  intros Hm Hp Huniq. unfold _completion_match.
  pose proof (completion_matches_elem E cmdstr) as Hel.
  pose proof (completion_matches_NoDup E cmdstr) as Hnd.
  assert (Hall : ∀ k, In k (List.filter (Py.find_is_0 cmdstr)
                              (fst <$> map_to_list (cmd_dict E))) → k = m).
  { intros k [Hk Hkp]%Hel. by apply Huniq. }
  assert (Hin := proj2 (Hel m) (conj Hm Hp)).
  destruct (List.filter _ _) as [|x [|y l]]; [done| |].
  - by destruct Hin as [->|[]].
  - exfalso. rewrite (Hall x), (Hall y) in Hnd by (simpl; auto).
    apply NoDup_cons in Hnd as [Hnd _]. apply Hnd. left.
Qed.

Lemma completion_match_unique_witness :
  _completion_match Demo.env "sc" = "scroll".
Proof.
  apply completion_match_unique; [by eexists | reflexivity |].
  intros k [c Hk] Hp.
  assert (Hin : k ∈ ["open"; "scroll"; "later"; "leave-mode"; "foo"; "foo0"]).
  { apply (elem_of_list_to_map_2 (M := gmap string)) in Hk.
    by apply (list_elem_of_fmap_2 fst) in Hk. }
  repeat (apply elem_of_cons in Hin as [->|Hin]; [done || by vm_compute in Hp|]).
  by apply elem_of_nil in Hin.
Defined.

(** X8: [_completion_match] leaves a registered name as it is, even when
    other registered names start with it, and applying it twice is the
    same as applying it once. *)
Theorem completion_match_idempotent (E : Env) (cmdstr : string) :
  (is_Some (cmd_dict E !! cmdstr) → _completion_match E cmdstr = cmdstr) ∧
  _completion_match E (_completion_match E cmdstr) = _completion_match E cmdstr.
Proof.
  split.
  - intros [c Hc]. by eapply _completion_match_registered.
  - destruct (_completion_match_cases E cmdstr) as [Hs|([c Hc] & _)].
    + by rewrite !Hs.
    + by eapply _completion_match_registered.
Qed.

(** ** Keeping the text *)

Section KeepJoin.

Lemma join_cons x l : join (x :: l) = x +:+ join l.
Proof. done. Qed.

Lemma append_cons c s t : String c s +:+ t = String c (s +:+ t).
Proof. done. Qed.

(** The pieces of a string, put together again with the characters that
    ended them, are the string. *)
Lemma pieces_flatten budget s :
  foldr (λ '(p, e) acc,
           p +:+ match e with Some c => String c acc | None => acc end)
        "" (Split.pieces budget s) = s.
Proof.
  revert budget. induction s as [|c s IH]; intros budget; simpl; [done|].
  destruct (Py.isspace c && negb (Split.spent budget)); simpl.
  - by rewrite IH.
  - specialize (IH budget).
    destruct (Split.pieces budget s) as [|[h e] t]; simpl in *;
      rewrite append_cons; [by subst s|by rewrite IH].
Qed.

Lemma tokens_keep_join ws ps :
  join (Split.tokens_keep ws ps) =
  ws +:+ foldr (λ '(p, e) acc,
                  p +:+ match e with Some c => String c acc | None => acc end)
               "" ps.
Proof.
  revert ws. induction ps as [|[p e] ps IH]; intros ws; simpl.
  - destruct ws; simpl; [done|]. by rewrite !append_nil_r.
  - destruct p as [|ch p]; simpl.
    + rewrite IH, append_assoc. by destruct e.
    + rewrite IH, append_assoc. by destruct e.
Qed.

(** With [keep] the tokens of the modelled splitter put together are the
    string that was split. *)
Lemma simple_split_keep_join s maxsplit :
  join (Split.simple_split s true maxsplit) = s.
Proof.
  unfold Split.simple_split. destruct maxsplit as [n|].
  - destruct (n <=? 0); [apply append_nil_r|].
    by rewrite tokens_keep_join, pieces_flatten.
  - by rewrite tokens_keep_join, pieces_flatten.
Qed.

End KeepJoin.

Section KeepParse.

Context (E : Env) (self : CommandRunner).

Hypothesis split_join : ∀ s, join (split_split E s true) = s.
Hypothesis simple_split_join :
  ∀ s maxsplit, join (split_simple_split E s true maxsplit) = s.

(** With [keep] the arguments put together are the argument string. *)
Lemma _split_args_keep_join cmd argstr :
  join (_split_args E cmd argstr true) = argstr.
Proof.
  unfold _split_args. destruct argstr as [|ch argstr]; [done|].
  destruct (maxsplit cmd) as [n|]; [|apply split_join].
  destruct (_split_args_loop_source E cmd n (String ch argstr) true
              (split_simple_split E (String ch argstr) true None) 0 0
              (split_simple_split E (String ch argstr) true None))
    as [Hl|(m & _ & Hl)]; rewrite Hl; apply simple_split_join.
Qed.

(** The command line built with [keep]. *)
Lemma cmdline_keep_join (cmdstr sep : string) (args : list string) :
  join match args with
       | args0 :: args' => [cmdstr; sep +:+ args0] ++ args'
       | [] => [cmdstr; sep]
       end = cmdstr +:+ sep +:+ join args.
Proof.
  destruct args as [|args0 args']; simpl; [done|].
  by rewrite append_assoc.
Qed.

Lemma parse_keep_join_text text aliases fallback cmdstr0 sep argstr r c :
  (aliases = true → _get_alias E text = Ok None) →
  Py.partition " " text = (cmdstr0, sep, argstr) →
  parse E self text aliases fallback true = Ok r →
  cmd r = Some c →
  ∃ nm, cmdline r !! 0%nat = Some nm ∧
    join (cmdline r) = nm +:+ sep +:+ argstr ∧
    (_partial_match self = false → Py.contains ":" cmdstr0 = false →
     join (cmdline r) = text).
Proof.
  intros Halias Hpart. unfold parse, parse_body. rewrite Hpart.
  destruct (_parse_count cmdstr0) as [[count cmdstr]|e] eqn:Hcount; simpl;
    [|done].
  destruct (negb (Py.truth cmdstr) && negb fallback); [done|].
  assert ((if aliases then _get_alias E text else Ok None) = Ok None) as ->.
  { destruct aliases; [by apply Halias|done]. }
  simpl. destruct (cmd_dict E !! _) as [c'|] eqn:Hc.
  - intros [= <-] _. simpl. eexists.
    split; [apply (cmdline_head true _ sep (_split_args E c' argstr true))|].
    pose proof (cmdline_keep_join
                  (if _partial_match self then _completion_match E cmdstr
                   else cmdstr) sep (_split_args E c' argstr true)) as Hjoin.
    simpl in Hjoin. rewrite Hjoin, _split_args_keep_join. split; [done|].
    intros -> Hcolon. rewrite (_parse_count_no_colon _ Hcolon) in Hcount.
    injection Hcount as _ <-. symmetry. by apply (partition_join " ").
  - destruct (negb fallback); [done|]. by intros [= <-].
Qed.

End KeepParse.

(** X9: when the splitters return, with [keep], tokens that put together
    are the string they split, the command line of a result with a
    command, parsed with [keep] and without alias expansion, puts together
    to the resolved name, the separator and the argument string; and to
    the text itself when there is no count prefix and no partial
    matching. *)
Theorem parse_keep_join (E : Env) (self : CommandRunner)
    (text : string) (aliases fallback : bool)
    (cmdstr0 sep argstr : string) (r : ParseResult) (c : Command) :
  (∀ s, join (split_split E s true) = s) →
  (∀ s maxsplit, join (split_simple_split E s true maxsplit) = s) →
  (aliases = true → _get_alias E text = Ok None) →
  Py.partition " " text = (cmdstr0, sep, argstr) →
  parse E self text aliases fallback true = Ok r →
  cmd r = Some c →
  ∃ nm, cmdline r !! 0%nat = Some nm ∧
    join (cmdline r) = nm +:+ sep +:+ argstr ∧
    (_partial_match self = false → Py.contains ":" cmdstr0 = false →
     join (cmdline r) = text).
Proof. intros Hsplit Hsimple. by apply parse_keep_join_text. Qed.

Lemma parse_keep_join_witness :
  ∃ nm,
    cmdline (MkParseResult (Some Demo.foo) (Some ["-v"; " a"; " b"; "  c "])
               ["foo"; " -v"; " a"; " b"; "  c "] None) !! 0%nat = Some nm ∧
    join (cmdline (MkParseResult (Some Demo.foo) (Some ["-v"; " a"; " b"; "  c "])
                     ["foo"; " -v"; " a"; " b"; "  c "] None)) =
      nm +:+ " " +:+ "-v a b  c " ∧
    (_partial_match Demo.runner = false → Py.contains ":" "foo" = false →
     join (cmdline (MkParseResult (Some Demo.foo) (Some ["-v"; " a"; " b"; "  c "])
                      ["foo"; " -v"; " a"; " b"; "  c "] None)) =
       "foo -v a b  c ").
Proof.
  apply (parse_keep_join Demo.env Demo.runner "foo -v a b  c " true true
           "foo" " " "-v a b  c " _ Demo.foo).
  - intros s. apply simple_split_keep_join.
  - intros s maxsplit. apply simple_split_keep_join.
  - reflexivity.
  - reflexivity.
  - reflexivity.
  - reflexivity.
Defined.

(** ** The count prefix and the rest of the result *)

(** X10: without aliases and with [fallback] off, putting a prefix
    [pre:] without space or colon in front of a text whose first token
    has no colon changes nothing but the count of the result, which
    becomes [int(pre)], or [None] when that is no integer; the error, if
    the text has one, is the same. *)
Theorem parse_prefix_changes_count_only (E : Env) (self : CommandRunner)
    (pre t t0 sep argstr : string) (keep : bool) :
  Py.contains " " pre = false →
  Py.contains ":" pre = false →
  Py.partition " " t = (t0, sep, argstr) →
  Py.contains ":" t0 = false →
  parse E self (pre +:+ String ":" t) false false keep =
    (λ r, MkParseResult (cmd r) (args r) (cmdline r) (Py.int pre)) <$>
      parse E self t false false keep.
Proof.
  intros Hsp Hcol Hpart Hcol0. unfold parse, parse_body.
  rewrite (partition_app " " pre (String ":" t) (String ":" t0) sep argstr Hsp)
    by (simpl; by rewrite Hpart).
  rewrite Hpart, (_parse_count_colon pre t0 Hcol),
    (_parse_count_no_colon t0 Hcol0). simpl.
  destruct (negb (Py.truth t0) && true); [done|].
  by destruct (cmd_dict E !! _).
Qed.

Lemma parse_prefix_changes_count_only_witness :
  parse Demo.env Demo.runner "12:foo -v x y z" false false false =
    (λ r, MkParseResult (cmd r) (args r) (cmdline r) (Some 12)) <$>
      parse Demo.env Demo.runner "foo -v x y z" false false false.
Proof.
  apply (parse_prefix_changes_count_only Demo.env Demo.runner
           "12" "foo -v x y z" "foo" " " "-v x y z" false); reflexivity.
Defined.

(** ** Fallback results *)

Section FallbackShape.

Context (E : Env) (self : CommandRunner).

Lemma parse_body_fallback_cmdline reparse text fallback r :
  parse_body E self reparse text false fallback false = Ok r →
  cmd r = None →
  fallback = true ∧ args r = None ∧ cmdline r = Py.split text.
Proof.
  unfold parse_body.
  destruct (Py.partition " " text) as [[cmdstr0 sep] argstr].
  destruct (_parse_count cmdstr0) as [[count cmdstr]|e]; simpl; [|done].
  destruct (negb (Py.truth cmdstr) && negb fallback); [done|].
  destruct (cmd_dict E !! _) as [c|]; [by intros [= <-]|].
  destruct fallback; simpl; [|done]. by intros [= <-].
Qed.

End FallbackShape.

(** X11: a result of [parse] without command, parsed without [keep], has
    no arguments either, exists only with [fallback] on, and its command
    line is the white-space split of the text, or of the text that the
    alias of its first word expanded it to. *)
Theorem parse_fallback_cmdline (E : Env) (self : CommandRunner)
    (text : string) (aliases fallback : bool) (r : ParseResult) :
  parse E self text aliases fallback false = Ok r →
  cmd r = None →
  fallback = true ∧ args r = None ∧
  (cmdline r = Py.split text ∨
   ∃ new_cmd, aliases = true ∧ _get_alias E text = Ok (Some new_cmd) ∧
              cmdline r = Py.split new_cmd).
Proof.
  unfold parse. intros Hp Hn.
  destruct aliases.
  - revert Hp. unfold parse_body at 1.
    destruct (Py.partition " " text) as [[cmdstr0 sep] argstr] eqn:Hpart.
    destruct (_parse_count cmdstr0) as [[count cmdstr]|e] eqn:Hcount; simpl;
      [|done].
    destruct (negb (Py.truth cmdstr) && negb fallback) eqn:Hcheck; [done|].
    destruct (_get_alias E text) as [[new_cmd|]|e] eqn:Ha; simpl; [| |done].
    + intros Hp. unfold parse_no_aliases in Hp.
      destruct (parse_body_fallback_cmdline E self _ _ _ _ Hp Hn)
        as (-> & Ha' & Hc). split; [done|]. split; [done|].
      right. by exists new_cmd.
    + destruct (cmd_dict E !! _) as [c|]; [intros [= <-]; done|].
      destruct fallback; simpl; [|done]. intros [= <-]. auto.
  - destruct (parse_body_fallback_cmdline E self _ _ _ _ Hp Hn)
      as (-> & Ha' & Hc). auto.
Qed.

Lemma parse_fallback_cmdline_witness :
  true = true ∧
  args (MkParseResult None None ["3:nope"; "a"; "b"] (Some 3)) = None ∧
  (cmdline (MkParseResult None None ["3:nope"; "a"; "b"] (Some 3)) =
     Py.split "3:nope  a b " ∨
   ∃ new_cmd, true = true ∧
     _get_alias Demo.env "3:nope  a b " = Ok (Some new_cmd) ∧
     cmdline (MkParseResult None None ["3:nope"; "a"; "b"] (Some 3)) =
       Py.split new_cmd).
Proof.
  apply (parse_fallback_cmdline Demo.env Demo.runner "3:nope  a b " true true);
    reflexivity.
Defined.

(** ** What [parse_all] raises *)

Section ParseAllErrors.

Context (E : Env) (self : CommandRunner).

(** A [yield_each] generator ends with an exception of [f]. *)
Lemma yield_each_raised {A C : Type} (f : A → result C) (xs : list A) e :
  raised (yield_each f xs) = Some e → ∃ x, x ∈ xs ∧ f x = Raise e.
Proof.
  induction xs as [|x xs IH]; simpl; [done|].
  destruct (f x) as [b|e'] eqn:Hf; simpl.
  - intros [x' [Hx' Hfx']]%IH. exists x'. split; [by right|done].
  - intros [= <-]. exists x. split; [left|done].
Qed.

Lemma parse_all_raise_cases text aliases fallback keep e :
  raised (parse_all E self text aliases fallback keep) = Some e →
  (e = AttributeError ∧ fallback = true) ∨
  (e = IndexError ∧ aliases = true) ∨
  (∃ msg, e = NoSuchCommandError msg ∧ fallback = false).
Proof.
  assert (Hparse : ∀ t, parse E self t aliases fallback keep = Raise e →
    (e = AttributeError ∧ fallback = true) ∨
    (e = IndexError ∧ aliases = true) ∨
    (∃ msg, e = NoSuchCommandError msg ∧ fallback = false)).
  { intros t [(-> & -> & _)|Hm]%parse_raise_cases; auto. }
  unfold parse_all.
  destruct (sub_texts E self text aliases fallback keep) as [subs|e'] eqn:Hsub;
    simpl.
  - intros [sub [_ Hs]]%yield_each_raised. by eapply Hparse.
  - intros [= ->]. revert Hsub. unfold sub_texts.
    destruct (Py.contains2 ";" text); [|done].
    destruct (split2_nonempty ";" text) as [first [rest ->]]. simpl.
    destruct (parse E self first aliases fallback keep) as [r|e''] eqn:Hp;
      simpl.
    + destruct (cmd r) as [c|] eqn:Hc; [by destruct (no_cmd_split c)|].
      intros [= <-]. left. split; [done|].
      destruct fallback; [done|].
      apply parse_resolved in Hp as [[c Hc'] _]. congruence.
    + intros [= <-]. by eapply Hparse.
Qed.

(** With [fallback] off every yielded result is resolved. *)
Lemma parse_all_yields_resolved text aliases keep r :
  r ∈ yielded (parse_all E self text aliases false keep) →
  ∃ c nm a, cmd r = Some c ∧ cmd_dict E !! nm = Some c ∧ args r = Some a ∧
            cmdline r !! 0%nat = Some nm.
Proof.
  unfold parse_all.
  destruct (sub_texts _ _ _ _ _ _) as [subs|e]; simpl;
    [|by intros ?%elem_of_nil].
  intros [sub [_ Hp]]%yield_each_yielded.
  destruct (parse_resolved E self _ _ _ _ Hp) as [[c Hc] _].
  destruct (parse_shape E self _ _ _ _ _ _ Hp Hc) as (nm & a & ? & ? & ? & _).
  by exists c, nm, a.
Qed.

End ParseAllErrors.

(** X12: [parse_all] ends with [AttributeError] only with [fallback] on,
    with [IndexError] only with [aliases] on, and otherwise with nothing
    but [NoSuchCommandError], and that only with [fallback] off. *)
Theorem parse_all_raises (E : Env) (self : CommandRunner)
    (text : string) (aliases fallback keep : bool) (e : exn) :
  raised (parse_all E self text aliases fallback keep) = Some e →
  (e = AttributeError ∧ fallback = true) ∨
  (e = IndexError ∧ aliases = true) ∨
  (∃ msg, e = NoSuchCommandError msg ∧ fallback = false).
Proof. apply parse_all_raise_cases. Qed.

Lemma parse_all_raises_witness :
  (NoSuchCommandError "nope: no such command" = AttributeError ∧ false = true) ∨
  (NoSuchCommandError "nope: no such command" = IndexError ∧ true = true) ∨
  (∃ msg, NoSuchCommandError "nope: no such command" = NoSuchCommandError msg ∧
          false = false).
Proof.
  apply (parse_all_raises Demo.env Demo.runner "open;;nope" true false false).
  reflexivity.
Defined.

(** X13: with [fallback] off, every result that [parse_all] yields has a
    command that the registry holds under the first token of the result's
    command line, and has arguments. *)
Theorem parse_all_yields_registered (E : Env) (self : CommandRunner)
    (text : string) (aliases keep : bool) (r : ParseResult) :
  r ∈ yielded (parse_all E self text aliases false keep) →
  ∃ c nm a, cmd r = Some c ∧ cmd_dict E !! nm = Some c ∧ args r = Some a ∧
            cmdline r !! 0%nat = Some nm.
Proof. apply parse_all_yields_resolved. Qed.

Lemma parse_all_yields_registered_witness :
  ∃ c nm a,
    cmd (MkParseResult (Some Demo.scroll) (Some ["down"]) ["scroll"; "down"] None)
      = Some c ∧
    cmd_dict Demo.env !! nm = Some c ∧
    args (MkParseResult (Some Demo.scroll) (Some ["down"]) ["scroll"; "down"] None)
      = Some a ∧
    cmdline (MkParseResult (Some Demo.scroll) (Some ["down"]) ["scroll"; "down"] None)
      !! 0%nat = Some nm.
Proof.
  apply (parse_all_yields_registered Demo.env Demo.runner "open ;; down"
           true false).
  vm_compute. apply list_elem_of_further, list_elem_of_here.
Defined.

(** ** When the substitution fails *)

Section SubstitutionErrors.

Context {Host QUrl Mode Dict : Type} (B : Browser Host QUrl Mode Dict).

Lemma invalid_message reason :
  ("Current URL is invalid (" +:+ reason +:+ ")") +:+ "!" =
  "Current URL is invalid (" +:+ reason +:+ ")!".
Proof. by rewrite !append_assoc. Qed.

Lemma replace_variables_raise_cases h arglist e :
  replace_variables B h arglist = Raise e ↔
  ∃ reason, current_url B h = inr reason ∧
    ("{url}" ∈ arglist ∨ "{url:pretty}" ∈ arglist) ∧
    e = CommandError (if Py.truth reason
                      then "Current URL is invalid (" +:+ reason +:+ ")!"
                      else "Current URL is invalid!").
Proof.
  unfold replace_variables, _current_url, Py.str_in.
  destruct (current_url B h) as [u|reason] eqn:Hu.
  - split; [|by intros (reason & [=] & _)].
    destruct (bool_decide ("{url}" ∈ arglist)) eqn:Hin1;
      destruct (bool_decide ("{url:pretty}" ∈ arglist)) eqn:Hin2; simpl;
      rewrite (replace_variables_loop_bound
                 (toString B u [FullyEncoded; RemovePassword])
                 (toString B u [RemovePassword])); try done; intros Hin;
      (by apply bool_decide_eq_false in Hin1) ||
      (by apply bool_decide_eq_false in Hin2).
  - assert (Hmsg :
      (let msg := "Current URL is invalid" in
       let msg := if Py.truth reason
                  then msg +:+ " (" +:+ reason +:+ ")" else msg in
       msg +:+ "!") =
      (if Py.truth reason then "Current URL is invalid (" +:+ reason +:+ ")!"
       else "Current URL is invalid!")).
    { simpl. destruct (Py.truth reason); [|done]. apply invalid_message. }
    simpl in Hmsg. rewrite Hmsg. clear Hmsg.
    destruct (decide ("{url}" ∈ arglist)) as [Hin1|Hin1].
    + rewrite (bool_decide_eq_true_2 _ Hin1). simpl. split.
      * intros [= <-]. exists reason. auto.
      * by intros (reason' & [= <-] & _ & ->).
    + rewrite (bool_decide_eq_false_2 _ Hin1). simpl.
      destruct (decide ("{url:pretty}" ∈ arglist)) as [Hin2|Hin2].
      * rewrite (bool_decide_eq_true_2 _ Hin2). simpl. split.
        -- intros [= <-]. exists reason. auto.
        -- by intros (reason' & [= <-] & _ & ->).
      * rewrite (bool_decide_eq_false_2 _ Hin2). simpl.
        rewrite replace_variables_loop_plain by done. split; [done|].
        intros (_ & _ & [?|?] & _); done.
Qed.

End SubstitutionErrors.

(** X14: [replace_variables] fails exactly when the list contains one of
    the two placeholders and the current URL is invalid, and then with
    [CommandError("Current URL is invalid!")], the reason in brackets
    before the exclamation mark when there is one. *)
Theorem replace_variables_fails_iff {Host QUrl Mode Dict : Type}
    (B : Browser Host QUrl Mode Dict) (h : Host) (arglist : list string)
    (e : exn) :
  replace_variables B h arglist = Raise e ↔
  ∃ reason, current_url B h = inr reason ∧
    ("{url}" ∈ arglist ∨ "{url:pretty}" ∈ arglist) ∧
    e = CommandError (if Py.truth reason
                      then "Current URL is invalid (" +:+ reason +:+ ")!"
                      else "Current URL is invalid!").
Proof. apply replace_variables_raise_cases. Qed.

(** ** What [run] does to the state *)

Section RunInvariants.

Context {Host QUrl Mode : Type} `{Countable Mode}.
Context (E : Env) (B : Browser Host QUrl Mode (gmap Mode (string * option Z)))
  (self : CommandRunner).

(** The dispatch of one resolved result: at most one call, of the
    result's command, and the errors it can end with. *)
Lemma run_result_effect text count r st st' res c nm a :
  cmd r = Some c →
  cmd_dict E !! nm = Some c →
  args r = Some a →
  cmdline r !! 0%nat = Some nm →
  run_result B self text count r st = (st', res) →
  (∃ more, calls st' = calls st ++ more ∧ Forall (call_ok E self count) more ∧
           (length more ≤ 1)%nat) ∧
  (∀ e, res = Raise e → dispatch_error B self e).
Proof.
  intros Hc Hnm Hargs Hcmdline.
  unfold run_result, bind, lift. rewrite Hargs, Hcmdline.
  destruct (replace_variables B (host st) a) as [args'|e] eqn:Hrepl.
  2:{ intros [= <- <-]. split.
      - exists []. rewrite app_nil_r. repeat split; [constructor|simpl; lia].
      - intros e' [= <-]. left.
        apply replace_variables_raise_cases in Hrepl as (? & _ & _ & ->).
        by eexists. }
  assert (Hinvoke : ∀ n stI resI,
    (∀ k, count = Some k → n = Some k) →
    invoke_cmd B self r args' n st = (stI, resI) →
    calls stI = calls st ++ [MkCall c (_win_id self) args' n] ∧
    Forall (call_ok E self count) [MkCall c (_win_id self) args' n] ∧
    (∀ e, resI = Raise e → dispatch_error B self e)).
  { intros n stI resI Hn. unfold invoke_cmd. rewrite Hc. unfold invoke.
    destruct (cmd_run B c (_win_id self) args' n (host st) (last_command st))
      as [[h d] rI] eqn:Hrun.
    intros [= <- <-]. simpl. repeat split; try done.
    - constructor; [|constructor]. repeat split; simpl; eauto.
    - intros e ->. right. right.
      exists c, args', n, (host st), (last_command st). by rewrite Hrun. }
  assert (Hdone : ∀ n stI resI,
    (∀ k, count = Some k → n = Some k) →
    invoke_cmd B self r args' n st = (stI, resI) →
    match resI with
    | Ok _ =>
        (if negb (Py.str_in nm unrecorded)
         then bind (λ st0, (st0, _parse_count text))
                (λ stripped,
                   set_last_command B
                     (stripped.2, match count with
                                  | Some n0 => Some n0
                                  | None => Runners.count r
                                  end))
         else ret ()) stI
    | Raise e => (stI, Raise e)
    end = (st', res) →
    (∃ more, calls st' = calls st ++ more ∧
             Forall (call_ok E self count) more ∧ (length more ≤ 1)%nat) ∧
    (∀ e, res = Raise e → dispatch_error B self e)).
  { intros n stI resI Hn Hinv.
    destruct (Hinvoke n stI resI Hn Hinv) as (Hcalls & Hok & Herr).
    destruct resI as [[]|e].
    - destruct (negb (Py.str_in nm unrecorded)).
      + unfold bind.
        destruct (_parse_count_total text) as [prefix [rest Hp]]. rewrite Hp.
        unfold set_last_command. intros [= <- <-]. simpl.
        split; [eexists; repeat split; [exact Hcalls|exact Hok|simpl; lia]|].
        done.
      + unfold ret. intros [= <- <-].
        split; [eexists; repeat split; [exact Hcalls|exact Hok|simpl; lia]|].
        done.
    - intros [= <- <-].
      split; [eexists; repeat split; [exact Hcalls|exact Hok|simpl; lia]|].
      by intros e' [= <-]; apply Herr. }
  destruct count as [k|], (Runners.count r) as [j|] eqn:Hj.
  - intros [= <- <-]. split.
    + exists []. rewrite app_nil_r. repeat split; [constructor|simpl; lia].
    + intros e [= <-]. right. by left.
  - destruct (invoke_cmd B self r args' (Some k) st) as [stI resI] eqn:Hinv.
    apply (Hdone (Some k) stI resI); [by intros ? [= ->]|done].
  - destruct (invoke_cmd B self r args' (Some j) st) as [stI resI] eqn:Hinv.
    apply (Hdone (Some j) stI resI); [done|done].
  - destruct (invoke_cmd B self r args' None st) as [stI resI] eqn:Hinv.
    apply (Hdone None stI resI); [done|done].
Qed.

End RunInvariants.

Section RunEffects.

Context {Host QUrl Mode : Type} `{Countable Mode}.
Context (E : Env) (B : Browser Host QUrl Mode (gmap Mode (string * option Z)))
  (self : CommandRunner).

Lemma run_results_effect text count rs st st' res :
  Forall (λ r, ∃ c nm a, cmd r = Some c ∧ cmd_dict E !! nm = Some c ∧
                 args r = Some a ∧ cmdline r !! 0%nat = Some nm) rs →
  run_results B self text count rs st = (st', res) →
  (∃ more, calls st' = calls st ++ more ∧ Forall (call_ok E self count) more ∧
           (length more ≤ length rs)%nat) ∧
  (∀ e, res = Raise e → dispatch_error B self e).
Proof.
  intros Hrs. revert st. induction Hrs as [|r rs Hr _ IH]; intros st; simpl.
  - unfold ret. intros [= <- <-]. split; [|done].
    exists []. rewrite app_nil_r. repeat split; [constructor|simpl; lia].
  - unfold bind.
    destruct (run_result B self text count r st) as [st1 res1] eqn:Hone.
    destruct Hr as (c & nm & a & Hc & Hnm & Ha & Hl).
    destruct (run_result_effect E B self text count r st st1 res1 c nm a
                Hc Hnm Ha Hl Hone)
      as ((more1 & Hcalls1 & Hok1 & Hlen1) & Herr1).
    destruct res1 as [[]|e1].
    + intros Hrest.
      destruct (IH st1 Hrest) as ((more2 & Hcalls2 & Hok2 & Hlen2) & Herr2).
      split; [|done].
      exists (more1 ++ more2). rewrite Hcalls2, Hcalls1, app_assoc.
      split; [done|]. split; [by apply Forall_app|].
      rewrite length_app. simpl. lia.
    + intros [= <- <-]. split.
      * exists more1. repeat split; [done..|simpl; lia].
      * intros e [= <-]. by apply Herr1.
Qed.

Lemma run_effect text count st st' res :
  run E B self text count st = (st', res) →
  (∃ more, calls st' = calls st ++ more ∧ Forall (call_ok E self count) more ∧
     (length more ≤ length (yielded (parse_all E self text true false false)))%nat) ∧
  (∀ e, res = Raise e →
     (∃ msg, e = NoSuchCommandError msg) ∨ e = IndexError ∨
     dispatch_error B self e).
Proof.
  unfold run, bind.
  destruct (run_results B self text count
              (yielded (parse_all E self text true false false)) st)
    as [st1 res1] eqn:Hloop.
  apply run_results_effect in Hloop as (Hcalls & Herr).
  2:{ apply Forall_forall. intros r Hr.
      by apply (parse_all_yields_resolved E self text true false). }
  destruct res1 as [[]|e1].
  - destruct (raised (parse_all E self text true false false)) as [e|] eqn:Hraised.
    + unfold raise. intros [= <- <-]. split; [done|].
      intros e' [= <-].
      apply parse_all_raise_cases in Hraised
        as [(_ & [=])|[(-> & _)|(msg & -> & _)]]; eauto.
    + unfold ret. intros [= <- <-]. by split.
  - intros [= <- <-]. split; [done|].
    intros e [= <-]. right. right. by apply Herr.
Qed.

(** Without the doubled separator there is one segment, the text. *)
Lemma split2_absent sep s : Py.contains2 sep s = false → Py.split2 sep s = [s].
Proof.
  induction s as [|c t IH]; [done|].
  destruct t as [|c' t']; [done|].
  intros Hc.
  change (Py.contains2 sep (String c (String c' t'))) with
    (Py.char_eqb c sep && Py.char_eqb c' sep ||
     Py.contains2 sep (String c' t')) in Hc.
  apply orb_false_iff in Hc as [Hcc Hc].
  change (Py.split2 sep (String c (String c' t'))) with
    (if Py.char_eqb c sep && Py.char_eqb c' sep
     then "" :: Py.split2 sep t'
     else match Py.split2 sep (String c' t') with
          | h :: t => String c h :: t
          | [] => [String c ""]
          end).
  rewrite Hcc. by rewrite (IH Hc).
Qed.

(** A chain whose first segment does not parse runs nothing. *)
Lemma run_first_fails text count st first rest e :
  Py.split2 ";" text = first :: rest →
  parse E self first true false false = Raise e →
  run E B self text count st = (st, Raise e).
Proof.
  intros Hs Hp. unfold run, parse_all, sub_texts. rewrite Hs. simpl.
  destruct (Py.contains2 ";" text) eqn:Hc.
  - by rewrite Hp.
  - rewrite (split2_absent _ _ Hc) in Hs. injection Hs as <- _.
    simpl. by rewrite Hp.
Qed.

End RunEffects.

(** X15: the calls of [Command.run] that [run] makes are added after
    those made before, at most one for each parsed segment; each is made
    in the runner's window, with a command that the registry holds, and
    with the caller's count when the caller gave one. *)
Theorem run_calls_registered {Host QUrl Mode : Type} `{Countable Mode}
    (E : Env) (B : Browser Host QUrl Mode (gmap Mode (string * option Z)))
    (self : CommandRunner)
    (text : string) (count : option Z)
    (st st' : State (Host := Host) (Mode := Mode)) (res : result unit) :
  run E B self text count st = (st', res) →
  ∃ more, calls st' = calls st ++ more ∧
    (length more ≤ length (yielded (parse_all E self text true false false)))%nat ∧
    Forall (λ cl, call_win_id cl = _win_id self ∧
                  (∃ nm, cmd_dict E !! nm = Some (call_cmd cl)) ∧
                  (∀ n, count = Some n → call_count cl = Some n)) more.
Proof.
  intros Hrun.
  destruct (run_effect E B self text count st st' res Hrun)
    as ((more & Hcalls & Hok & Hlen) & _).
  exists more. by repeat split.
Qed.

Lemma run_calls_registered_witness :
  ∃ more,
    calls (run Demo.env Demo.browser Demo.runner "open x;;scroll down"
             (Some 4) (Demo.start Demo.page)).1 = [] ++ more ∧
    (length more ≤
     length (yielded (parse_all Demo.env Demo.runner "open x;;scroll down"
                        true false false)))%nat ∧
    Forall (λ cl, call_win_id cl = _win_id Demo.runner ∧
                  (∃ nm, cmd_dict Demo.env !! nm = Some (call_cmd cl)) ∧
                  (∀ n, Some 4 = Some n → call_count cl = Some n)) more.
Proof.
  apply (run_calls_registered Demo.env Demo.browser Demo.runner
           "open x;;scroll down" (Some 4) (Demo.start Demo.page) _
           (run Demo.env Demo.browser Demo.runner "open x;;scroll down"
              (Some 4) (Demo.start Demo.page)).2).
  apply surjective_pairing.
Defined.

(** X16: [run] raises nothing but the [NoSuchCommandError] or
    [IndexError] of parsing, the [CommandError] of the substitution, the
    [CommandMetaError] for a count given twice, and what a command
    raised when it was invoked. *)
Theorem run_raises {Host QUrl Mode : Type} `{Countable Mode}
    (E : Env) (B : Browser Host QUrl Mode (gmap Mode (string * option Z)))
    (self : CommandRunner)
    (text : string) (count : option Z)
    (st st' : State (Host := Host) (Mode := Mode)) (e : exn) :
  run E B self text count st = (st', Raise e) →
  (∃ msg, e = NoSuchCommandError msg) ∨
  e = IndexError ∨
  (∃ msg, e = CommandError msg) ∨
  e = CommandMetaError "Got count via command and prefix!" ∨
  (∃ c a n h d, (cmd_run B c (_win_id self) a n h d).2 = Raise e).
Proof.
  intros Hrun.
  destruct (run_effect E B self text count st st' _ Hrun) as (_ & Herr).
  destruct (Herr e eq_refl) as [?|[?|[?|[?|?]]]]; auto.
Qed.

Lemma run_raises_witness :
  (∃ msg, CommandMetaError "Got count via command and prefix!" =
            NoSuchCommandError msg) ∨
  CommandMetaError "Got count via command and prefix!" = IndexError ∨
  (∃ msg, CommandMetaError "Got count via command and prefix!" =
            CommandError msg) ∨
  CommandMetaError "Got count via command and prefix!" =
    CommandMetaError "Got count via command and prefix!" ∨
  (∃ c a n h d, (cmd_run Demo.browser c (_win_id Demo.runner) a n h d).2 =
                  Raise (CommandMetaError "Got count via command and prefix!")).
Proof.
  apply (run_raises Demo.env Demo.browser Demo.runner "open;;3:scroll"
           (Some 1) (Demo.start Demo.page)
           (run Demo.env Demo.browser Demo.runner "open;;3:scroll"
              (Some 1) (Demo.start Demo.page)).1).
  reflexivity.
Defined.

(** X18: when [run] dispatches a text without [";;"] and nothing fails,
    the command was invoked once, on the window and on [last_command] as
    they were, with the substituted arguments and the caller's count, or
    the parsed count when the caller gave none.  If the command line
    starts with [leave-mode], [command-accept] or [repeat-command],
    [last_command] is then as the command left it: [run] writes nothing.
    Otherwise [run] sets, in what the command left, the entry of the mode
    the window is in after the command ran to what [_parse_count] leaves
    of the text and that count. *)
Theorem run_single_records {Host QUrl Mode : Type} `{Countable Mode}
    (E : Env) (B : Browser Host QUrl Mode (gmap Mode (string * option Z)))
    (self : CommandRunner)
    (text : string) (count : option Z)
    (st st' : State (Host := Host) (Mode := Mode))
    (r : ParseResult) (nm : string) :
  Py.contains2 ";" text = false →
  parse E self text true false false = Ok r →
  cmdline r !! 0%nat = Some nm →
  run E B self text count st = (st', Ok ()) →
  ∃ c arglist args d,
    cmd r = Some c ∧ Runners.args r = Some arglist ∧
    replace_variables B (host st) arglist = Ok args ∧
    cmd_run B c (_win_id self) args
      (match count with Some n => Some n | None => Runners.count r end)
      (host st) (last_command st) = (host st', d, Ok ()) ∧
    if Py.str_in nm unrecorded then last_command st' = d
    else ∃ prefix rest,
      _parse_count text = Ok (prefix, rest) ∧
      last_command st' =
        <[mode B (host st') :=
            (rest, match count with
                   | Some n => Some n
                   | None => Runners.count r
                   end)]> d.
Proof.
  intros Hc Hp Hl. unfold run, parse_all, sub_texts. rewrite Hc. simpl.
  rewrite Hp. simpl. unfold bind, ret.
  destruct (run_result B self text count r st) as [st1 [[]|e]] eqn:Hone;
    [|done].
  intros [= <-]. by eapply run_result_last_command.
Qed.

Lemma run_single_records_witness :
  (∃ c arglist args d,
     Some Demo.scroll = Some c ∧ Some ["down"] = Some arglist ∧
     replace_variables Demo.browser Demo.page arglist = Ok args ∧
     cmd_run Demo.browser c 0 args (Some 3) Demo.page ∅ =
       (host (run Demo.env Demo.browser Demo.runner "3:scroll down" None
                (Demo.start Demo.page)).1, d, Ok ()) ∧
     ∃ prefix rest,
       _parse_count "3:scroll down" = Ok (prefix, rest) ∧
       last_command (run Demo.env Demo.browser Demo.runner "3:scroll down" None
                       (Demo.start Demo.page)).1 =
         <[mode Demo.browser
             (host (run Demo.env Demo.browser Demo.runner "3:scroll down" None
                      (Demo.start Demo.page)).1) :=
             (rest, Some 3)]> d) ∧
  (∃ c arglist args d,
     Some Demo.leave_mode = Some c ∧ Some [] = Some arglist ∧
     replace_variables Demo.browser Demo.page arglist = Ok args ∧
     cmd_run Demo.browser c 0 args None Demo.page ∅ =
       (host (run Demo.env Demo.browser Demo.runner "leave-mode" None
                (Demo.start Demo.page)).1, d, Ok ()) ∧
     last_command (run Demo.env Demo.browser Demo.runner "leave-mode" None
                     (Demo.start Demo.page)).1 = d).
Proof.
  split.
  - apply (run_single_records Demo.env Demo.browser Demo.runner
             "3:scroll down" None (Demo.start Demo.page) _
             (MkParseResult (Some Demo.scroll) (Some ["down"])
                ["scroll"; "down"] (Some 3)) "scroll");
      reflexivity.
  - apply (run_single_records Demo.env Demo.browser Demo.runner
             "leave-mode" None (Demo.start Demo.page) _
             (MkParseResult (Some Demo.leave_mode) (Some [])
                ["leave-mode"] None) "leave-mode");
      reflexivity.
Defined.

(** X19: when the text before the first [";;"] (the whole text when
    there is none) does not parse, [run] raises the error of that parse
    and leaves the state as it was: no command of the chain is invoked
    and nothing is recorded, whatever the later segments are. *)
Theorem run_first_parse_fails {Host QUrl Mode : Type} `{Countable Mode}
    (E : Env) (B : Browser Host QUrl Mode (gmap Mode (string * option Z)))
    (self : CommandRunner)
    (text : string) (count : option Z)
    (st : State (Host := Host) (Mode := Mode))
    (first : string) (rest : list string) (e : exn) :
  Py.split2 ";" text = first :: rest →
  parse E self first true false false = Raise e →
  run E B self text count st = (st, Raise e).
Proof. apply run_first_fails. Qed.

Lemma run_first_parse_fails_witness :
  run Demo.env Demo.browser Demo.runner "nope;;open x" None
      (Demo.start Demo.page) =
    (Demo.start Demo.page, Raise (NoSuchCommandError "nope: no such command")).
Proof.
  apply (run_first_parse_fails Demo.env Demo.browser Demo.runner
           "nope;;open x" None (Demo.start Demo.page) "nope" ["open x"]);
    reflexivity.
Defined.

(** ** Texts of white space, and the wrappers *)

Section BlankTexts.

(** A string that strips to nothing has only white space in it. *)
Lemma strip_blank_chars s c :
  Py.strip s = "" → Py.contains c s = true → Py.isspace c = true.
Proof.
  unfold Py.strip. induction s as [|a s IH]; simpl; [done|].
  destruct (Py.rstrip s) as [|b r] eqn:Hr.
  - destruct (Py.isspace a) eqn:Ha; simpl; [|by rewrite Ha].
    intros _ [Hc|Hc]%orb_true_iff; [|by apply IH].
    by apply char_eqb_true in Hc as <-.
  - simpl. destruct (Py.isspace a) eqn:Ha; [|done].
    intros Hl [Hc|Hc]%orb_true_iff; [|by apply IH].
    by apply char_eqb_true in Hc as <-.
Qed.

Lemma contains2_contains sep s :
  Py.contains2 sep s = true → Py.contains sep s = true.
Proof.
  induction s as [|c t IH]; [done|].
  destruct t as [|c' t']; [done|]. intros Hc.
  change (Py.contains2 sep (String c (String c' t'))) with
    (Py.char_eqb c sep && Py.char_eqb c' sep ||
     Py.contains2 sep (String c' t')) in Hc.
  change (Py.contains sep (String c (String c' t'))) with
    (Py.char_eqb c sep || Py.contains sep (String c' t')).
  apply orb_true_iff in Hc as [[-> _]%andb_true_iff|Hc]; [done|].
  rewrite (IH Hc). apply orb_true_r.
Qed.

Lemma partition_fst_contains sep s a b d c :
  Py.partition sep s = (a, b, d) →
  Py.contains c a = true → Py.contains c s = true.
Proof.
  revert a b d. induction s as [|x s IH]; simpl; intros a b d.
  - by intros [= <- _ _].
  - destruct (Py.char_eqb x sep); [by intros [= <- _ _]|].
    destruct (Py.partition sep s) as [[a' b'] d'].
    intros [= <- _ _]. simpl.
    intros [->|Hc]%orb_true_iff; [done|].
    rewrite (IH a' b' d' eq_refl Hc). apply orb_true_r.
Qed.

(** With the default options a text of white space that does not start
    with a space gets to [_get_alias]. *)
Lemma parse_blank_no_space E self text keep :
  Py.strip text = "" →
  text ≠ "" →
  Py.startswith " " text = false →
  parse E self text true false keep = Raise IndexError.
Proof.
  intros Hs Hne Hsp. unfold parse, parse_body.
  destruct (Py.partition " " text) as [[cmdstr0 sep] argstr] eqn:Hpart.
  assert (Hcolon : Py.contains ":" cmdstr0 = false).
  { destruct (Py.contains ":" cmdstr0) eqn:Hc; [|done].
    apply (partition_fst_contains _ _ _ _ _ _ Hpart) in Hc.
    by apply (strip_blank_chars _ _ Hs) in Hc. }
  rewrite (_parse_count_no_colon _ Hcolon). simpl.
  assert (Py.truth cmdstr0 = true) as ->.
  { destruct text as [|ch t]; [done|]. simpl in Hsp, Hpart.
    rewrite Hsp in Hpart. destruct (Py.partition " " t) as [[a' b'] d'].
    by injection Hpart as <- _ _. }
  simpl. by rewrite (_get_alias_blank E _ Hs).
Qed.

Lemma blank_no_chain text : Py.strip text = "" → Py.contains2 ";" text = false.
Proof.
  intros Hs. destruct (Py.contains2 ";" text) eqn:Hc; [|done].
  apply contains2_contains in Hc. by apply (strip_blank_chars _ _ Hs) in Hc.
Qed.

End BlankTexts.

(** X20: a text that is not empty, consists of white space and does not
    start with a space (a tab, say) makes [run] raise [IndexError] with
    the state unchanged, and [run_safely] lets that exception through
    without reporting anything. *)
Theorem run_blank_index_error {Host QUrl Mode : Type} `{Countable Mode}
    (E : Env) (B : Browser Host QUrl Mode (gmap Mode (string * option Z)))
    (self : CommandRunner)
    (text : string) (count : option Z)
    (st : State (Host := Host) (Mode := Mode)) (reports : list Report) :
  Py.strip text = "" →
  text ≠ "" →
  Py.startswith " " text = false →
  run E B self text count st = (st, Raise IndexError) ∧
  run_safely E B self text count st reports = (st, reports, Raise IndexError).
Proof.
  intros Hs Hne Hsp.
  assert (Hrun : run E B self text count st = (st, Raise IndexError)).
  { apply (run_first_fails E B self text count st text []).
    - apply split2_absent. by apply blank_no_chain.
    - by apply parse_blank_no_space. }
  split; [done|]. unfold run_safely. by rewrite Hrun.
Qed.

Lemma run_blank_index_error_witness :
  run Demo.env Demo.browser Demo.runner (String "009" "") None
      (Demo.start Demo.page) = (Demo.start Demo.page, Raise IndexError) ∧
  run_safely Demo.env Demo.browser Demo.runner (String "009" "") None
      (Demo.start Demo.page) [] = (Demo.start Demo.page, [], Raise IndexError).
Proof.
  apply (run_blank_index_error Demo.env Demo.browser Demo.runner
           (String "009" "") None (Demo.start Demo.page) []); done.
Defined.

(** X21: [run_safely] returns normally with the reports unchanged when
    [run] returns, and with exactly one report added, shown immediately,
    when [run] raises one of the errors it catches; the only exceptions it
    lets through, without report, are the [IndexError] of parsing and
    what a command raised that is none of those errors.  The state is the
    one [run] left. *)
Theorem run_safely_outcome {Host QUrl Mode : Type} `{Countable Mode}
    (E : Env) (B : Browser Host QUrl Mode (gmap Mode (string * option Z)))
    (self : CommandRunner)
    (text : string) (count : option Z)
    (st st' : State (Host := Host) (Mode := Mode))
    (reports reports' : list Report) (res : result unit) :
  run_safely E B self text count st reports = (st', reports', res) →
  (res = Ok () ∧ reports' = reports ∧
   run E B self text count st = (st', Ok ())) ∨
  (∃ e, res = Ok () ∧ caught e = true ∧
        reports' = reports ++ [MkReport (_win_id self) e true] ∧
        run E B self text count st = (st', Raise e)) ∨
  (∃ e, res = Raise e ∧ caught e = false ∧ reports' = reports ∧
        run E B self text count st = (st', Raise e) ∧
        (e = IndexError ∨
         ∃ c a n h d, (cmd_run B c (_win_id self) a n h d).2 = Raise e)).
Proof.
  unfold run_safely.
  destruct (run E B self text count st) as [st1 [[]|e]] eqn:Hrun.
  - intros [= <- <- <-]. by left.
  - destruct (caught e) eqn:Hcaught.
    + intros [= <- <- <-]. right. left. by exists e.
    + intros [= <- <- <-]. right. right. exists e. repeat split; try done.
      destruct (run_effect E B self text count st st1 _ Hrun) as (_ & Herr).
      destruct (Herr e eq_refl)
        as [[msg ->]|[->|[[msg ->]|[->|Hcmd]]]]; try done; auto.
Qed.

Lemma run_safely_outcome_witness :
  (Ok () = Ok () ∧
   [MkReport 0 (NoSuchCommandError "nope: no such command") true] = [] ∧
   run Demo.env Demo.browser Demo.runner "nope" None (Demo.start Demo.page) =
     (Demo.start Demo.page, Ok ())) ∨
  (∃ e, Ok () = Ok () ∧ caught e = true ∧
        [MkReport 0 (NoSuchCommandError "nope: no such command") true] =
          [] ++ [MkReport (_win_id Demo.runner) e true] ∧
        run Demo.env Demo.browser Demo.runner "nope" None (Demo.start Demo.page) =
          (Demo.start Demo.page, Raise e)) ∨
  (∃ e, Ok () = Raise e ∧ caught e = false ∧
        [MkReport 0 (NoSuchCommandError "nope: no such command") true] = [] ∧
        run Demo.env Demo.browser Demo.runner "nope" None (Demo.start Demo.page) =
          (Demo.start Demo.page, Raise e) ∧
        (e = IndexError ∨
         ∃ c a n h d,
           (cmd_run Demo.browser c (_win_id Demo.runner) a n h d).2 = Raise e)).
Proof.
  apply (run_safely_outcome Demo.env Demo.browser Demo.runner "nope" None
           (Demo.start Demo.page) (Demo.start Demo.page) []).
  reflexivity.
Defined.

(** X22: when the text before the first [";;"] (the whole text when
    there is none) fails to parse with [NoSuchCommandError], both
    wrappers return normally, leave the state as it was and add one
    report of that error: [run_safely] one to show immediately,
    [run_safely_init] one that is not. *)
Theorem run_safely_reports_no_such_command {Host QUrl Mode : Type}
    `{Countable Mode}
    (E : Env) (B : Browser Host QUrl Mode (gmap Mode (string * option Z)))
    (self : CommandRunner)
    (text : string) (count : option Z)
    (st : State (Host := Host) (Mode := Mode)) (reports : list Report)
    (first : string) (rest : list string) (msg : string) :
  Py.split2 ";" text = first :: rest →
  parse E self first true false false = Raise (NoSuchCommandError msg) →
  run_safely E B self text count st reports =
    (st, reports ++ [MkReport (_win_id self) (NoSuchCommandError msg) true],
     Ok ()) ∧
  run_safely_init E B self text count st reports =
    (st, reports ++ [MkReport (_win_id self) (NoSuchCommandError msg) false],
     Ok ()).
Proof.
  intros Hs Hp. unfold run_safely, run_safely_init.
  by rewrite (run_first_fails E B self text count st first rest _ Hs Hp).
Qed.

Lemma run_safely_reports_no_such_command_witness :
  run_safely Demo.env Demo.browser Demo.runner " open" None
      (Demo.start Demo.page) [] =
    (Demo.start Demo.page,
     [] ++ [MkReport 0 (NoSuchCommandError "No command given") true], Ok ()) ∧
  run_safely_init Demo.env Demo.browser Demo.runner " open" None
      (Demo.start Demo.page) [] =
    (Demo.start Demo.page,
     [] ++ [MkReport 0 (NoSuchCommandError "No command given") false], Ok ()).
Proof.
  apply (run_safely_reports_no_such_command Demo.env Demo.browser Demo.runner
           " open" None (Demo.start Demo.page) [] " open" []);
    reflexivity.
Defined.

(** ** Abbreviated names *)

(** X23: with partial matching on and without aliases, a text that
    starts with an abbreviation which [_completion_match] completes to a
    registered name parses to the same result as the text with the name
    written out, when neither contains a space or a colon and what
    follows is nothing or starts with a space. *)
Theorem parse_partial_match (E : Env) (self : CommandRunner)
    (cmdstr nm tail : string) (fallback keep : bool) :
  _partial_match self = true →
  _completion_match E cmdstr = nm →
  is_Some (cmd_dict E !! nm) →
  Py.contains " " cmdstr = false → Py.contains ":" cmdstr = false →
  Py.contains " " nm = false → Py.contains ":" nm = false →
  cmdstr ≠ "" →
  tail = "" ∨ Py.startswith " " tail = true →
  parse E self (cmdstr +:+ tail) false fallback keep =
    parse E self (nm +:+ tail) false fallback keep.
Proof.
  intros Hpm Hcm [c Hc] Hsp Hcol Hsp' Hcol' Hne Htail.
  assert (Hpart : ∃ sep argstr, Py.partition " " tail = ("", sep, argstr)).
  { destruct Htail as [->|Ht]; [by eexists _, _|].
    destruct tail as [|ch t]; [done|]. simpl in *. rewrite Ht. by eexists _, _. }
  destruct Hpart as (sep & argstr & Hpart).
  unfold parse, parse_body.
  rewrite (partition_app " " cmdstr tail "" sep argstr Hsp Hpart),
    (partition_app " " nm tail "" sep argstr Hsp' Hpart), !append_nil_r.
  rewrite (_parse_count_no_colon _ Hcol), (_parse_count_no_colon _ Hcol').
  simpl. rewrite Hpm, Hcm, (_completion_match_registered E nm c Hc), Hc.
  assert (Py.truth cmdstr = true) as -> by by destruct cmdstr.
  assert (Py.truth nm = true) as ->.
  { destruct nm; [|done]. destruct cmdstr; [done|].
    destruct (_completion_match_cases E (String a cmdstr))
      as [Hs|(_ & Hp & _)]; [congruence|]. by rewrite Hcm in Hp. }
  done.
Qed.

Lemma parse_partial_match_witness :
  parse Demo.env Demo.partial_runner "sc down" false false false =
    parse Demo.env Demo.partial_runner "scroll down" false false false.
Proof.
  apply (parse_partial_match Demo.env Demo.partial_runner "sc" "scroll" " down"
           false false);
    [reflexivity | reflexivity | by eexists | reflexivity | reflexivity
    | reflexivity | reflexivity | done | by right].
Defined.
